(** * The in-memory node store and the SMT entity-storage layer

    A shallow embedding of package [db] (the in-memory store [MemDb]) and
    of the entity storage of package [smt] ([SetAccountBalance],
    [SetContractStorage], [SetStorage], [calcHashVal], ...), with the
    properties the specification states about them.

    Conventions.
    - A Go [uint64] is a [Z] in the range [0, 2^64); a [[]byte] is a list
      of [Z] in [0, 256); a pointer to [big.Int] is a [Z], or an [option Z] where the
      pointer can be [nil].
    - A Go [map[string]T] is a [gmap string T]; reading a missing key gives
      the zero value of [T], as in Go.
    - The order in which Go ranges over a map is not fixed: a function that
      ranges over a map takes the entries as a list, in the order of that
      run.
    - A Go function returning [(T, error)] returns a [result T]; a run-time
      panic is the third outcome. *)

From stdpp Require Import gmap strings list fin_maps pretty.
From Stdlib Require Import ZArith Lia.
From Stdlib Require Import Ascii.
From Stdlib Require String.

Local Open Scope Z_scope.

(** ** Outcomes *)

Inductive error : Type :=
| ErrNotFound                       (* db.ErrNotFound, "key not found" *)
| ErrContextDone (logPrefix : string) (* fmt.Errorf("[%s] Context done") *)
| ErrInvalidArrayLength             (* the 8-limb conversion's error *)
| ErrOther (msg : string).          (* an error of a helper outside this file *)

Inductive panic : Type :=
| IndexOutOfRange
| NilDereference
| DivideByZero.

Inductive result (A : Type) : Type :=
| Ok (a : A)
| Err (e : error)
| Panic (p : panic).

Arguments Ok {A} a.
Arguments Err {A} e.
Arguments Panic {A} p.

Abbreviation bytes := (list Z) (only parsing).

(** ** The parts of Go's standard library the code calls *)

Module Go.

(** [strings.HasPrefix] and [strings.TrimPrefix]. *)
Fixpoint HasPrefix (s p : string) : bool :=
  match p, s with
  | EmptyString, _ => true
  | String c p', String d s' => if Ascii.eqb c d then HasPrefix s' p' else false
  | String _ _, EmptyString => false
  end.

Fixpoint drop_chars (n : nat) (s : string) : string :=
  match n, s with
  | O, _ => s
  | S n', String _ s' => drop_chars n' s'
  | S _, EmptyString => EmptyString
  end.

Definition TrimPrefix (s p : string) : string :=
  if HasPrefix s p then drop_chars (String.length p) s else s.

(** [hex.EncodeToString]: two lower-case hexadecimal digits per byte. *)
Definition hexdigit (n : Z) : ascii :=
  match n with
  | 0 => "0" | 1 => "1" | 2 => "2" | 3 => "3" | 4 => "4" | 5 => "5"
  | 6 => "6" | 7 => "7" | 8 => "8" | 9 => "9" | 10 => "a" | 11 => "b"
  | 12 => "c" | 13 => "d" | 14 => "e" | _ => "f"
  end%char.

Fixpoint EncodeToString (bs : bytes) : string :=
  match bs with
  | [] => EmptyString
  | b :: bs' =>
      String (hexdigit ((b / 16) mod 16))
        (String (hexdigit (b mod 16)) (EncodeToString bs'))
  end.

(** [big.Int.SetBytes]: the bytes read as a big-endian unsigned integer. *)
Definition SetBytes (buf : bytes) : Z :=
  fold_left (fun acc b => acc * 256 + b) buf 0.

(** The value of a digit character, for bases up to 36 (letters in either
    case), as [big.Int.SetString] reads it. *)
Definition digit_val (c : ascii) : option Z :=
  let n := Z.of_nat (nat_of_ascii c) in
  if (48 <=? n) && (n <=? 57) then Some (n - 48)
  else if (97 <=? n) && (n <=? 122) then Some (n - 97 + 10)
  else if (65 <=? n) && (n <=? 90) then Some (n - 65 + 10)
  else None.

Fixpoint parse_digits (base : Z) (acc : Z) (s : string) : option Z :=
  match s with
  | EmptyString => Some acc
  | String c s' =>
      match digit_val c with
      | Some d => if d <? base then parse_digits base (acc * base + d) s' else None
      | None => None
      end
  end.

(** [big.Int.SetString(s, base)] for an explicit base (10 or 16 here): an
    optional sign, then at least one digit of the base, and nothing else; no
    base prefix and no underscore is accepted when the base is given.
    [None] is the failure, on which Go returns a nil pointer. *)
Definition SetString (s : string) (base : Z) : option Z :=
  match s with
  | EmptyString => None
  | String c s' =>
      if Ascii.eqb c "-"%char then
        match s' with
        | EmptyString => None
        | _ => Z.opp <$> parse_digits base 0 s'
        end
      else if Ascii.eqb c "+"%char then
        match s' with
        | EmptyString => None
        | _ => parse_digits base 0 s'
        end
      else parse_digits base 0 s
  end.

End Go.

(** ** Package [utils]: the types of the tree *)

Module utils.

(** [type NodeKey [4]uint64]. [key_slice] is the slice [key[:]]. *)
Record NodeKey : Type := mkNodeKey { k0 : Z; k1 : Z; k2 : Z; k3 : Z }.

Definition key_slice (k : NodeKey) : list Z := [k0 k; k1 k; k2 k; k3 k].

Definition zeroNodeKey : NodeKey := mkNodeKey 0 0 0 0.


(** [type NodeValue12 [12]uint64] and [type NodeValue8 [8]uint64]: fixed
    arrays, here lists of that length; the zero value is all zeros. *)
Abbreviation NodeValue12 := (list Z) (only parsing).
Abbreviation NodeValue8 := (list Z) (only parsing).

Definition zeroNodeValue12 : NodeValue12 := replicate 12 0.
Definition zeroNodeValue8 : NodeValue8 := replicate 8 0.

(** Modelled from the spec: [NodeValue8.IsZero], which is not among the
    sources. "zero value is the sentinel meaning no entry / delete": the
    value is zero when every limb is. *)
Definition IsZero (v : NodeValue8) : bool := forallb (Z.eqb 0) v.

(** [libcommon.Address] (20 bytes) and [common.Hash] (32 bytes). *)
Abbreviation Address := (list Z) (only parsing).
Abbreviation CommonHash := (list Z) (only parsing).

(** [common.Hash{}]. *)
Definition zeroHash : CommonHash := replicate 32 0.

(** Modelled from the spec: the leaf kinds [KEY_BALANCE], [KEY_NONCE],
    [SC_CODE], [SC_STORAGE], [SC_LENGTH], declared outside the sources.
    "Leaf kinds: BALANCE=0, NONCE=1, CODE=2, STORAGE=3, LENGTH=4". *)
Definition KEY_BALANCE : Z := 0.
Definition KEY_NONCE : Z := 1.
Definition SC_CODE : Z := 2.
Definition SC_STORAGE : Z := 3.
Definition SC_LENGTH : Z := 4.

(** *** Scalars and limbs *)


(** Modelled from the spec: [ArrayToScalar], which is not among the sources.
    "array_to_scalar: inverse of the limb split": limb [i] weighs
    [2^(64*i)]. *)
Definition ArrayToScalar (arr : list Z) : Z :=
  fold_right (fun limb acc => limb + 2 ^ 64 * acc) 0 arr.

(** The big-endian rendering of [x] on [n] bytes. *)
Fixpoint be_bytes (n : nat) (x : Z) : bytes :=
  match n with
  | O => []
  | S n' => be_bytes n' (x / 256) ++ [x mod 256]
  end.

(** Modelled from the spec: [ArrayToBytes], which is not among the sources.
    "Hash-key record: 32 bytes (4 limbs little-endian)": the scalar whose
    little-endian limbs are the array, on 32 bytes. The bytes of the scalar
    are taken most significant first, the order in which [MemDb.GetHashKey]
    reads them back with [big.Int.SetBytes]. *)
Definition ArrayToBytes (arr : list Z) : bytes :=
  be_bytes 32 (ArrayToScalar arr).

(** Modelled from the spec: [ScalarToArrayBig], which is not among the
    sources. "scalar_to_8(x): eight 32-bit lanes". A nil scalar cannot be
    read: Go panics on the dereference. *)
Definition ScalarToArrayBig (x : option Z) : result (list Z) :=
  match x with
  | None => Panic NilDereference
  | Some x =>
      Ok ((fun i => Z.land (Z.shiftr x (32 * i)) (Z.ones 32))
            <$> [0; 1; 2; 3; 4; 5; 6; 7])
  end.

(** Modelled from the spec: [NodeValue8FromBigIntArray], which is not among
    the sources. "each lane stored in the low 32 bits of a 64-bit field
    element"; an array that has not eight lanes is an invalid input. *)
Definition NodeValue8FromBigIntArray (arr : list Z) : result NodeValue8 :=
  if decide (length arr = 8%nat)
  then Ok ((fun v => v mod 2 ^ 64) <$> arr)
  else Err ErrInvalidArrayLength.

(** Modelled from the spec: [NodeValue8FromBigInt], which is not among the
    sources: the 8-limb value of a scalar, [scalar_to_8]. *)
Definition NodeValue8FromBigInt (x : option Z) : result NodeValue8 :=
  match ScalarToArrayBig x with
  | Ok arr => NodeValue8FromBigIntArray arr
  | Err e => Err e
  | Panic p => Panic p
  end.

(** [NodeValue8.ToUintArray]: the limbs as a slice. *)
Definition ToUintArray (v : NodeValue8) : list Z := v.

(** Modelled from the spec: [ResizeHashTo32BytesByPrefixingWithZeroes],
    which is not among the sources. "32-byte big-endian ...
    (left-zero-padded if shorter)". *)
Definition ResizeHashTo32BytesByPrefixingWithZeroes (h : bytes) : bytes :=
  replicate (32 - length h) 0 ++ h.

(** *** Helpers the sources call and do not define

    The hash primitive, the key derivations, the hexadecimal renderings and
    the key-source encoding are used here through their signatures only. *)
Class Helpers : Type := {
  (* []uint64 -> string, the key of the store's maps *)
  ConvertArrayToHex : list Z -> string;
  ConvertHexToUint64 : string -> result Z;
  ConvertUint64ToHex : Z -> string;
  (* H(input, capacity) -> [4]uint64 *)
  Hash : list Z -> list Z -> list Z;
  BranchCapacity : list Z;
  KeyEthAddrBalance : string -> NodeKey;
  KeyEthAddrNonce : string -> NodeKey;
  KeyContractCode : string -> NodeKey;
  KeyContractLength : string -> NodeKey;
  KeyContractStorage : string -> string -> result NodeKey;
  EncodeKeySource : Z -> Address -> CommonHash -> bytes;
  (* the bytecode hash of a hex string, as a scalar and as its bytes *)
  HashContractBytecodeBigInt : string -> Z;
  HashContractBytecodeBytes : string -> bytes;
  StrValToBigInt : string -> option Z;
  (* libcommon: addr.String(), common.HexToAddress, common.BigToHash *)
  AddressString : Address -> string;
  HexToAddress : string -> Address;
  BigToHash : Z -> CommonHash;
}.

(** Modelled from the spec: [HashContractBytecode], which is not among the
    sources. It gives the key of the code map for a bytecode in hexadecimal:
    "Code record: raw bytecode bytes, keyed by a 32-byte big-endian keccak
    hash (left-zero-padded if shorter)", in the rendering [MemDb.GetCode]
    looks keys up with. *)
Definition HashContractBytecode `{Helpers} (bc : string) : string :=
  "0x" +:+ Go.EncodeToString
             (ResizeHashTo32BytesByPrefixingWithZeroes (HashContractBytecodeBytes bc)).

End utils.

(** ** Package [db]: the in-memory store [MemDb]

    The lock of the store serialises its methods; each method is modelled
    as the function of the store it computes under the lock. *)

Module db.
Import utils.

Record MemDb : Type := mkMemDb {
  Db : gmap string (list string);
  DbAccVal : gmap string (list string);
  DbKeySource : gmap string (list Z);
  DbHashKey : gmap string (list Z);
  DbCode : gmap string (list Z);
  LastRoot : Z;
  Depth : Z;
}.

Definition NewMemDb : MemDb :=
  {| Db := ∅; DbAccVal := ∅; DbKeySource := ∅; DbHashKey := ∅; DbCode := ∅;
     LastRoot := 0; Depth := 0 |}.

(** The batch operations do nothing on the in-memory store. *)
Definition OpenBatch (m : MemDb) : MemDb := m.
Definition CommitBatch (m : MemDb) : MemDb * option error := (m, None).
Definition RollbackBatch (m : MemDb) : MemDb := m.

Definition GetLastRoot (m : MemDb) : result Z := Ok (LastRoot m).

Definition SetLastRoot (m : MemDb) (value : Z) : MemDb * option error :=
  ({| Db := Db m; DbAccVal := DbAccVal m; DbKeySource := DbKeySource m;
      DbHashKey := DbHashKey m; DbCode := DbCode m;
      LastRoot := value; Depth := Depth m |}, None).

Definition GetDepth (m : MemDb) : result Z := Ok (Depth m).

Definition SetDepth (m : MemDb) (depth : Z) : MemDb * option error :=
  ({| Db := Db m; DbAccVal := DbAccVal m; DbKeySource := DbKeySource m;
      DbHashKey := DbHashKey m; DbCode := DbCode m;
      LastRoot := LastRoot m; Depth := depth |}, None).

Section with_helpers.
Context `{Helpers}.

(** The loop [for i, v := range strs { values[i] = parse(v) }] of [Get] and
    [GetAccountValue] over an array of [n] limbs: the first string that does
    not parse ends the call with its error, and an index past the array
    panics. *)
Fixpoint fill_values (n : nat) (i : nat) (strs : list string) (values : list Z)
  : result (list Z) :=
  match strs with
  | [] => Ok values
  | v :: strs' =>
      match ConvertHexToUint64 v with
      | Ok asUint64 =>
          if decide (i < n)%nat
          then fill_values n (S i) strs' (<[i := asUint64]> values)
          else Panic IndexOutOfRange
      | Err e => Err e
      | Panic p => Panic p
      end
  end.

Definition Get (m : MemDb) (key : NodeKey) : result NodeValue12 :=
  let k := ConvertArrayToHex (key_slice key) in
  fill_values 12 0 (default [] (Db m !! k)) zeroNodeValue12.

Definition Insert (m : MemDb) (key : NodeKey) (value : NodeValue12)
  : MemDb * option error :=
  let k := ConvertArrayToHex (key_slice key) in
  (* values := make([]string, 12); values[i] = hex(v) for the limbs of the array *)
  let values := ConvertUint64ToHex <$> value in
  ({| Db := <[k := values]> (Db m); DbAccVal := DbAccVal m;
      DbKeySource := DbKeySource m; DbHashKey := DbHashKey m;
      DbCode := DbCode m; LastRoot := LastRoot m; Depth := Depth m |}, None).

Definition Delete (m : MemDb) (key : string) : MemDb * option error :=
  ({| Db := delete key (Db m); DbAccVal := DbAccVal m;
      DbKeySource := DbKeySource m; DbHashKey := DbHashKey m;
      DbCode := DbCode m; LastRoot := LastRoot m; Depth := Depth m |}, None).

Definition DeleteByNodeKey (m : MemDb) (key : NodeKey) : MemDb * option error :=
  Delete m (ConvertArrayToHex (key_slice key)).

Definition GetAccountValue (m : MemDb) (key : NodeKey) : result NodeValue8 :=
  let k := ConvertArrayToHex (key_slice key) in
  fill_values 8 0 (default [] (DbAccVal m !! k)) zeroNodeValue8.

Definition InsertAccountValue (m : MemDb) (key : NodeKey) (value : NodeValue8)
  : MemDb * option error :=
  let k := ConvertArrayToHex (key_slice key) in
  let values := ConvertUint64ToHex <$> value in
  ({| Db := Db m; DbAccVal := <[k := values]> (DbAccVal m);
      DbKeySource := DbKeySource m; DbHashKey := DbHashKey m;
      DbCode := DbCode m; LastRoot := LastRoot m; Depth := Depth m |}, None).

Definition InsertKeySource (m : MemDb) (key : NodeKey) (value : bytes)
  : MemDb * option error :=
  let k := ConvertArrayToHex (key_slice key) in
  ({| Db := Db m; DbAccVal := DbAccVal m;
      DbKeySource := <[k := value]> (DbKeySource m);
      DbHashKey := DbHashKey m; DbCode := DbCode m;
      LastRoot := LastRoot m; Depth := Depth m |}, None).

Definition DeleteKeySource (m : MemDb) (key : NodeKey) : MemDb * option error :=
  let k := ConvertArrayToHex (key_slice key) in
  ({| Db := Db m; DbAccVal := DbAccVal m;
      DbKeySource := delete k (DbKeySource m);
      DbHashKey := DbHashKey m; DbCode := DbCode m;
      LastRoot := LastRoot m; Depth := Depth m |}, None).

Definition GetKeySource (m : MemDb) (key : NodeKey) : result bytes :=
  let k := ConvertArrayToHex (key_slice key) in
  match DbKeySource m !! k with
  | None => Err ErrNotFound
  | Some s => Ok s
  end.

Definition InsertHashKey (m : MemDb) (key value : NodeKey) : MemDb * option error :=
  let k := ConvertArrayToHex (key_slice key) in
  let valBytes := ArrayToBytes (key_slice value) in
  ({| Db := Db m; DbAccVal := DbAccVal m; DbKeySource := DbKeySource m;
      DbHashKey := <[k := valBytes]> (DbHashKey m); DbCode := DbCode m;
      LastRoot := LastRoot m; Depth := Depth m |}, None).



Definition GetCode (m : MemDb) (codeHash : bytes) : result bytes :=
  let codeHash := ResizeHashTo32BytesByPrefixingWithZeroes codeHash in
  match DbCode m !! ("0x" +:+ Go.EncodeToString codeHash) with
  | None => Err ErrNotFound
  | Some s => Ok s
  end.

Definition AddCode (m : MemDb) (code : bytes) : MemDb * option error :=
  let codeHash := HashContractBytecode (Go.EncodeToString code) in
  ({| Db := Db m; DbAccVal := DbAccVal m; DbKeySource := DbKeySource m;
      DbHashKey := DbHashKey m; DbCode := <[codeHash := code]> (DbCode m);
      LastRoot := LastRoot m; Depth := Depth m |}, None).

Definition IsEmpty (m : MemDb) : bool := bool_decide (size (Db m) = 0%nat).

(** "As there are no collectors in the memdb we can just fall back to the
    regular insert calls": the collectors call the inserts and drop their
    error. *)
Definition CollectAccountValue (m : MemDb) (key : NodeKey) (value : NodeValue8)
  : MemDb := (InsertAccountValue m key value).1.

Definition CollectKeySource (m : MemDb) (key : NodeKey) (value : bytes) : MemDb :=
  (InsertKeySource m key value).1.

Definition CollectSmt (m : MemDb) (key : NodeKey) (value : NodeValue12) : MemDb :=
  (Insert m key value).1.

Definition CollectHashKey (m : MemDb) (key value : NodeKey) : MemDb :=
  (InsertHashKey m key value).1.

End with_helpers.

End db.

(** ** Package [smt]: the entity-storage layer of the tree engine *)

Module smt.
Import utils db.

(** [accounts.Account], as far as this layer reads it. *)
Record Account : Type := mkAccount { Nonce : Z; Balance : Z }.

(** The calls a run makes on the store and on the tree engine, in order.
    The record of calls is not a field of the Go struct: it is kept to state
    which operations a run performs. *)
Inductive call : Type :=
| CallInsertKeySource (key : NodeKey) (ks : list Z)
| CallDeleteKeySource (key : NodeKey)
| CallInsertKA (key : NodeKey) (value : Z)
| CallInsertBatch (keys : list NodeKey) (values : list (list Z)).

(** The state a method of [*SMT] runs in: the store [s.Db], the calls made so
    far, and how many times the cancellation channel [ctx.Done()] has been
    polled. A context is the answer to each poll, in order. *)
Record SMT : Type := mkSMT {
  Db : MemDb;
  calls : list call;
  polls : nat;
}.

Definition context : Type := nat -> bool.

(** The tree engine proper ([InsertKA], [InsertBatch], [InsertStorage]) is
    outside the sources: it is any function of the store and its arguments. *)
Class Engine : Type := {
  InsertKA : MemDb -> NodeKey -> Z -> MemDb * result Z;
  InsertBatch : MemDb -> list NodeKey -> list (list Z) -> MemDb * result unit;
  InsertStorage :
    MemDb -> string -> gmap string string ->
    gmap string (option (list Z)) -> gmap string (list Z) -> MemDb * result Z;
}.

(** *** Methods as state transformers with an error or a panic *)

Definition M (A : Type) : Type := SMT -> SMT * result A.

Definition ret {A} (a : A) : M A := fun s => (s, Ok a).

Definition bind {A B} (m : M A) (f : A -> M B) : M B :=
  fun s =>
    match m s with
    | (s', Ok a) => f a s'
    | (s', Err e) => (s', Err e)
    | (s', Panic p) => (s', Panic p)
    end.

Definition lift {A} (r : result A) : M A := fun s => (s, r).

Notation "'let*' x ':=' m 'in' k" := (bind m (fun x => k))
  (at level 10, x pattern, m at level 100, k at level 200).

(** A [for ... range] loop whose body updates the local variables [acc] and
    may return from the method. *)
Fixpoint forM {X B} (body : B -> X -> M B) (acc : B) (xs : list X) : M B :=
  match xs with
  | [] => ret acc
  | x :: xs' => let* acc' := body acc x in forM body acc' xs'
  end.

(** A call on the store: the store changes, the call is recorded, and a
    non-nil error is returned to the caller, who returns it. *)
Definition on_store (c : call) (f : MemDb -> MemDb * option error) : M unit :=
  fun s =>
    let '(m', e) := f (Db s) in
    ({| Db := m'; calls := calls s ++ [c]; polls := polls s |},
     match e with None => Ok tt | Some e => Err e end).

(** [select { case <-ctx.Done(): return ...; default: }]. *)
Definition check_done (ctx : context) (logPrefix : string) : M unit :=
  fun s =>
    ({| Db := Db s; calls := calls s; polls := S (polls s) |},
     if ctx (polls s) then Err (ErrContextDone logPrefix) else Ok tt).

Section with_engine.
Context `{Helpers} `{Engine}.

Definition InsertKeySource (nodeKey : NodeKey) (key : Z)
    (accountAddr : Address) (storagePosition : CommonHash) : M unit :=
  let ks := EncodeKeySource key accountAddr storagePosition in
  on_store (CallInsertKeySource nodeKey ks)
           (fun m => db.InsertKeySource m nodeKey ks).

Definition DeleteKeySource (nodeKey : NodeKey) : M unit :=
  on_store (CallDeleteKeySource nodeKey) (fun m => db.DeleteKeySource m nodeKey).

Definition call_InsertKA (key : NodeKey) (value : Z) : M Z :=
  fun s =>
    let '(m', r) := InsertKA (Db s) key value in
    ({| Db := m'; calls := calls s ++ [CallInsertKA key value]; polls := polls s |}, r).

Definition call_InsertBatch (keys : list NodeKey) (values : list (list Z)) : M unit :=
  fun s =>
    let '(m', r) := InsertBatch (Db s) keys values in
    ({| Db := m'; calls := calls s ++ [CallInsertBatch keys values];
        polls := polls s |}, r).

(** [SetAccountBalance]: the result is [response.NewRootScalar.ToBigInt()]. *)
Definition SetAccountBalance (ethAddr : string) (balance : Z) : M Z :=
  let keyBalance := KeyEthAddrBalance ethAddr in
  let* response := call_InsertKA keyBalance balance in
  let ks := EncodeKeySource KEY_BALANCE (HexToAddress ethAddr) zeroHash in
  let* _ := on_store (CallInsertKeySource keyBalance ks)
                     (fun m => db.InsertKeySource m keyBalance ks) in
  ret response.

Definition SetAccountNonce (ethAddr : string) (nonce : Z) : M Z :=
  let keyNonce := KeyEthAddrNonce ethAddr in
  let* response := call_InsertKA keyNonce nonce in
  let ks := EncodeKeySource KEY_NONCE (HexToAddress ethAddr) zeroHash in
  let* _ := on_store (CallInsertKeySource keyNonce ks)
                     (fun m => db.InsertKeySource m keyNonce ks) in
  ret response.

Definition SetAccountState (ethAddr : string) (balance nonce : Z) : M Z :=
  let* _ := SetAccountBalance ethAddr balance in
  SetAccountNonce ethAddr nonce.

Definition convertStringToBigInt (v : string) : option Z :=
  if Go.HasPrefix v "0x"
  then Go.SetString (Go.TrimPrefix v "0x") 16
  else Go.SetString v 10.

Definition calcHashVal (v : string) : result (list Z * list Z) :=
  let val := convertStringToBigInt v in
  match ScalarToArrayBig val with
  | Ok x =>
      match NodeValue8FromBigIntArray x with
      | Ok value => Ok (value, Hash (ToUintArray value) BranchCapacity)
      | Err e => Err e
      | Panic p => Panic p
      end
  | Err e => Err e
  | Panic p => Panic p
  end.

Definition appendToValuesBatchStorageBigInt
    (valuesBatchStorage : list (list Z)) (value : option Z)
  : result (list (list Z) * bool) :=
  match NodeValue8FromBigInt value with
  | Ok nodeValue => Ok (valuesBatchStorage ++ [nodeValue], IsZero nodeValue)
  | Err e => Err e
  | Panic p => Panic p
  end.

Definition convertBytecodeToBigInt (bytecode : string) : result (Z * nat) :=
  let bi := HashContractBytecodeBigInt bytecode in
  let parsedBytecode := Go.TrimPrefix bytecode "0x" in
  let parsedBytecode :=
    if decide (String.length parsedBytecode mod 2 ≠ 0)%nat
    then "0" +:+ parsedBytecode else parsedBytecode in
  let bytecodeLength := (String.length parsedBytecode / 2)%nat in
  if decide (String.length bytecode = 0%nat)
  then Ok (0, 0%nat)
  else Ok (bi, bytecodeLength).

(** [SetAccountStorage]: a nil account is set as the zero balance and the
    zero nonce. *)
Definition SetAccountStorage (addr : Address) (acc : option Account) : M unit :=
  match acc with
  | Some a =>
      let n := Nonce a in
      let* _ := SetAccountState (AddressString addr) (Balance a) n in
      ret tt
  | None =>
      let* _ := SetAccountState (AddressString addr) 0 0 in
      ret tt
  end.

Definition SetContractBytecode (ethAddr : string) (bytecode : string) : M unit :=
  let keyContractCode := KeyContractCode ethAddr in
  let keyContractLength := KeyContractLength ethAddr in
  let* (bi, bytecodeLength) := lift (convertBytecodeToBigInt bytecode) in
  let* _ := call_InsertKA keyContractCode bi in
  let ks := EncodeKeySource SC_CODE (HexToAddress ethAddr) zeroHash in
  let* _ := on_store (CallInsertKeySource keyContractCode ks)
                     (fun m => db.InsertKeySource m keyContractCode ks) in
  let* _ := call_InsertKA keyContractLength (Z.of_nat bytecodeLength) in
  let ks := EncodeKeySource SC_LENGTH (HexToAddress ethAddr) zeroHash in
  on_store (CallInsertKeySource keyContractLength ks)
           (fun m => db.InsertKeySource m keyContractLength ks).

(** The block [SetStorage] repeats for every value it batches:
[[
    keysBatchStorage = append(keysBatchStorage, &key)
    if valuesBatchStorage, isDelete, err = appendToValuesBatchStorageBigInt(valuesBatchStorage, value); err != nil {
        return nil, nil, err
    }
    if !isDelete { err = s.InsertKeySource(&key, kind, &addr, &hash) } else { err = s.DeleteKeySource(&key) }
    if err != nil { return nil, nil, err }
]]
    The storage loop computes [hash] inside the [!isDelete] branch, so it is
    passed as the computation that gives it. *)
Definition batchValue (batch : list NodeKey * list (list Z))
    (key : NodeKey) (value : option Z)
    (kind : Z) (addr : Address) (hash : result CommonHash)
  : M (list NodeKey * list (list Z)) :=
  let keysBatchStorage := batch.1 ++ [key] in
  let* (valuesBatchStorage, isDelete) :=
    lift (appendToValuesBatchStorageBigInt batch.2 value) in
  if negb isDelete then
    let* hash := lift hash in
    let* _ := InsertKeySource key kind addr hash in
    ret (keysBatchStorage, valuesBatchStorage)
  else
    let* _ := DeleteKeySource key in
    ret (keysBatchStorage, valuesBatchStorage).

(** The body of [for addr, acc := range accChanges]. *)
Definition setStorage_account (ctx : context) (logPrefix : string)
    (batch : list NodeKey * list (list Z)) (entry : Address * option Account)
  : M (list NodeKey * list (list Z)) :=
  let '(addr, acc) := entry in
  let* _ := check_done ctx logPrefix in
  let ethAddr := AddressString addr in
  let keyBalance := KeyEthAddrBalance ethAddr in
  let keyNonce := KeyEthAddrNonce ethAddr in
  let balance := match acc with Some a => Balance a | None => 0 end in
  let nonce := match acc with Some a => Nonce a | None => 0 end in
  let* batch := batchValue batch keyBalance (Some balance) KEY_BALANCE addr (Ok zeroHash) in
  batchValue batch keyNonce (Some nonce) KEY_NONCE addr (Ok zeroHash).

(** The body of [for addr, code := range codeChanges]. *)
Definition setStorage_code (ctx : context) (logPrefix : string)
    (batch : list NodeKey * list (list Z)) (entry : Address * string)
  : M (list NodeKey * list (list Z)) :=
  let '(addr, code) := entry in
  let* _ := check_done ctx logPrefix in
  let ethAddr := AddressString addr in
  let keyContractCode := KeyContractCode ethAddr in
  let keyContractLength := KeyContractLength ethAddr in
  let* (bi, bytecodeLength) := lift (convertBytecodeToBigInt code) in
  let* batch := batchValue batch keyContractCode (Some bi) SC_CODE addr (Ok zeroHash) in
  batchValue batch keyContractLength (Some (Z.of_nat bytecodeLength))
             SC_LENGTH addr (Ok zeroHash).

(** The body of [for k, v := range storage]. *)
Definition setStorage_slot (addr : Address)
    (batch : list NodeKey * list (list Z)) (entry : string * string)
  : M (list NodeKey * list (list Z)) :=
  let '(k, v) := entry in
  let* keyStoragePosition := lift (KeyContractStorage (AddressString addr) k) in
  let valueBigInt := convertStringToBigInt v in
  batchValue batch keyStoragePosition valueBigInt SC_STORAGE addr
             (match StrValToBigInt k with
              | Some sp => Ok (BigToHash sp)
              | None => Panic NilDereference
              end).

(** The body of [for addr, storage := range storageChanges]. *)
Definition setStorage_storage (ctx : context) (logPrefix : string)
    (batch : list NodeKey * list (list Z))
    (entry : Address * list (string * string))
  : M (list NodeKey * list (list Z)) :=
  let '(addr, storage) := entry in
  let* _ := check_done ctx logPrefix in
  forM (setStorage_slot addr) batch storage.

(** The three loops of [SetStorage], which fill [keysBatchStorage] and
    [valuesBatchStorage] and write or delete the key sources. *)
Definition setStorage_collect (ctx : context) (logPrefix : string)
    (accChanges : list (Address * option Account))
    (codeChanges : list (Address * string))
    (storageChanges : list (Address * list (string * string)))
  : M (list NodeKey * list (list Z)) :=
  let* batch := forM (setStorage_account ctx logPrefix) ([], []) accChanges in
  let* batch := forM (setStorage_code ctx logPrefix) batch codeChanges in
  forM (setStorage_storage ctx logPrefix) batch storageChanges.

(** [SetStorage]. The three maps are given as the entries the run ranges
    over, in its order. A returned slice is [None] when it is nil. The
    capacity the slices are allocated with has no effect on the result. *)
Definition SetStorage (ctx : context) (logPrefix : string)
    (accChanges : list (Address * option Account))
    (codeChanges : list (Address * string))
    (storageChanges : list (Address * list (string * string)))
  : M (option (list NodeKey) * option (list (list Z))) :=
  if decide (length storageChanges = 0%nat ∧ length accChanges = 0%nat
             ∧ length codeChanges = 0%nat)
  then ret (None, None)
  else
    let* (keysBatchStorage, valuesBatchStorage) :=
      setStorage_collect ctx logPrefix accChanges codeChanges storageChanges in
    let* _ := call_InsertBatch keysBatchStorage valuesBatchStorage in
    ret (Some keysBatchStorage, Some valuesBatchStorage).

(** *** [SetContractStorage]: hashing the values of a storage map *)

(** [storage[k]]: the empty string for a slot the map does not have. *)
Definition storage_get (storage : gmap string string) (k : string) : string :=
  default "" (storage !! k).

(** The two maps the hashing stage fills: [chm], slot to (a pointer to) the
    8-limb value, and [vhm], slot to value hash. *)
Definition maps : Type := gmap string (option (list Z)) * gmap string (list Z).

(** The sequential path: [for _, k := range storageKeys]. *)
Fixpoint sequential_loop (storage : gmap string string)
    (storageKeys : list string) (m : maps) : result maps :=
  match storageKeys with
  | [] => Ok m
  | k :: rest =>
      let v := storage_get storage k in
      if decide (v = "") then sequential_loop storage rest m
      else
        match calcHashVal v with
        | Ok (c, h) =>
            sequential_loop storage rest (<[k := Some c]> m.1, <[k := h]> m.2)
        | Err e => Err e
        | Panic p => Panic p
        end
  end.

(** The output buffers of one worker: [keyArray[i]], [cVArray[i]] and
    [hashArray[i]], as [make] leaves them. *)
Record buffers : Type := mkBuffers {
  keyArr : list string;
  cVArr : list (option (list Z));
  hashArr : list (list Z);
}.

Definition new_buffers (operationsPerCpu : nat) : buffers :=
  {| keyArr := replicate operationsPerCpu "";
     cVArr := replicate operationsPerCpu None;
     hashArr := replicate operationsPerCpu [0; 0; 0; 0] |}.

(** The loop of worker [cpuI],
    [for j := cpuI; j < storageKeyCount; j += cpuNum], from the state
    [(j, count)] on. It ends with the final [count] and the buffers, with the
    error the worker stores in [err], or with a panic; a write past a buffer
    is an index-out-of-range panic. [fuel] bounds the number of iterations:
    [None] is a run that needs more. *)
Fixpoint worker_loop (storage : gmap string string) (storageKeys : list string)
    (cpuNum : nat) (fuel : nat) (j count : nat) (b : buffers)
  : option (result (nat * buffers)) :=
  match fuel with
  | O => None
  | S fuel' =>
      if decide (j < length storageKeys)%nat then
        match storageKeys !! j with
        | None => Some (Panic IndexOutOfRange)
        | Some k =>
            let v := storage_get storage k in
            if decide (v = "")
            then worker_loop storage storageKeys cpuNum fuel' (j + cpuNum) count b
            else
              match calcHashVal v with
              | Ok (c, h) =>
                  if decide (count < length (keyArr b) ∧ count < length (cVArr b)
                             ∧ count < length (hashArr b))%nat
                  then
                    worker_loop storage storageKeys cpuNum fuel' (j + cpuNum) (S count)
                      {| keyArr := <[count := k]> (keyArr b);
                         cVArr := <[count := Some c]> (cVArr b);
                         hashArr := <[count := h]> (hashArr b) |}
                  else Some (Panic IndexOutOfRange)
              | Err e => Some (Err e)
              | Panic p => Some (Panic p)
              end
        end
      else Some (Ok (count, b))
  end.

(** [operationsPerCpu := storageKeyCount/cpuNum + storageKeyCount%cpuNum]. *)
Definition operationsPerCpu (storageKeyCount cpuNum : nat) : nat :=
  (storageKeyCount / cpuNum + storageKeyCount mod cpuNum)%nat.

(** Worker [cpuI], started on fresh buffers. The loop advances [j] by
    [cpuNum] at each iteration, so [S storageKeyCount] iterations are
    given. *)
Definition worker (storage : gmap string string) (storageKeys : list string)
    (cpuNum : nat) (cpuI : nat) : option (result (nat * buffers)) :=
  worker_loop storage storageKeys cpuNum (S (length storageKeys)) cpuI 0
    (new_buffers (operationsPerCpu (length storageKeys) cpuNum)).

(** [wg.Wait()] and the test of [err]. The workers share nothing they write
    but [err]: a panic in any of them ends the program, and otherwise an
    error stored by one of them is returned. *)
Fixpoint join {X} (rs : list (option (result X))) : option (result (list X)) :=
  match rs with
  | [] => Some (Ok [])
  | r :: rs' =>
      match r, join rs' with
      | None, _ | _, None => None
      | Some (Panic p), _ => Some (Panic p)
      | _, Some (Panic p) => Some (Panic p)
      | Some (Err e), _ => Some (Err e)
      | _, Some (Err e) => Some (Err e)
      | Some (Ok x), Some (Ok xs) => Some (Ok (x :: xs))
      end
  end.

(** The inner merge loop, [for j := 0; j < len(keyArray[i]); j++], over the
    keys from index [j] on. *)
Fixpoint merge_buffer (b : buffers) (j : nat) (ks : list string) (m : maps)
  : result maps :=
  match ks with
  | [] => Ok m
  | k :: ks' =>
      if decide (k = "") then merge_buffer b (S j) ks' m
      else
        match cVArr b !! j, hashArr b !! j with
        | Some c, Some h => merge_buffer b (S j) ks' (<[k := c]> m.1, <[k := h]> m.2)
        | _, _ => Panic IndexOutOfRange
        end
  end.

(** The outer merge loop, [for i := 0; i < len(keyArray); i++]. *)
Fixpoint merge_all (bs : list buffers) (m : maps) : result maps :=
  match bs with
  | [] => Ok m
  | b :: bs' =>
      match merge_buffer b 0 (keyArr b) m with
      | Ok m' => merge_all bs' m'
      | Err e => Err e
      | Panic p => Panic p
      end
  end.

(** The parallel path, for [cpuNum] workers. *)
Definition parallel_maps (cpuNum : nat) (storage : gmap string string)
    (storageKeys : list string) : option (result maps) :=
  if decide (cpuNum = 0%nat) then Some (Panic DivideByZero)
  else
    match join (worker storage storageKeys cpuNum <$> seq 0 cpuNum) with
    | None => None
    | Some (Ok outs) => Some (merge_all (snd <$> outs) (∅, ∅))
    | Some (Err e) => Some (Err e)
    | Some (Panic p) => Some (Panic p)
    end.

Definition sequential_maps (storage : gmap string string)
    (storageKeys : list string) : result maps :=
  sequential_loop storage storageKeys (∅, ∅).

(** The stage of [SetContractStorage] before [InsertStorage]: the parallel
    path when the map has more than 100 entries. [storageKeys] are the keys
    of the map in the order the run ranged over it, and [cpuNum] is
    [parallel.DefaultNumGoroutines()]. *)
Definition hash_storage_values (cpuNum : nat) (storage : gmap string string)
    (storageKeys : list string) : option (result maps) :=
  if decide (100 < size storage)%nat
  then parallel_maps cpuNum storage storageKeys
  else Some (sequential_maps storage storageKeys).

(** [SetContractStorage]: the hashing stage, then [InsertStorage] on the
    maps it produced; the result is [auxRes.NewRootScalar.ToBigInt()]. *)
Definition SetContractStorage (cpuNum : nat) (ethAddr : string)
    (storage : gmap string string) (storageKeys : list string)
  : SMT -> option (SMT * result Z) :=
  fun s =>
    match hash_storage_values cpuNum storage storageKeys with
    | None => None
    | Some (Ok (chm, vhm)) =>
        let '(m', r) := InsertStorage (Db s) ethAddr storage chm vhm in
        Some ({| Db := m'; calls := calls s; polls := polls s |}, r)
    | Some (Err e) => Some (s, Err e)
    | Some (Panic p) => Some (s, Panic p)
    end.

End with_engine.

End smt.

(** ** Package [stages]: collecting an account for the regeneration of the
    tree

    The functions write through the interface [smt.DB]; they are modelled
    over its in-memory implementation [MemDb]. A function returning
    [(keys, error)] returns the store it leaves and the result. *)

Module stages.
Import utils db.

Section with_helpers.
Context `{Helpers}.

Definition insertAccountStateToKV (m : MemDb) (keys : list NodeKey)
    (ethAddr : string) (balance nonce : option Z)
  : MemDb * result (list NodeKey) :=
  let keyBalance := KeyEthAddrBalance ethAddr in
  let keyNonce := KeyEthAddrNonce ethAddr in
  match ScalarToArrayBig balance with
  | Panic p => (m, Panic p)
  | Err e => (m, Err e)
  | Ok x =>
  match NodeValue8FromBigIntArray x with
  | Panic p => (m, Panic p)
  | Err e => (m, Err e)
  | Ok valueBalance =>
  match ScalarToArrayBig nonce with
  | Panic p => (m, Panic p)
  | Err e => (m, Err e)
  | Ok x =>
  match NodeValue8FromBigIntArray x with
  | Panic p => (m, Panic p)
  | Err e => (m, Err e)
  | Ok valueNonce =>
      let '(m, keys) :=
        if negb (IsZero valueBalance) then
          let m := CollectAccountValue m keyBalance valueBalance in
          let ks := EncodeKeySource KEY_BALANCE (HexToAddress ethAddr) zeroHash in
          (CollectKeySource m keyBalance ks, keys ++ [keyBalance])
        else (m, keys) in
      let '(m, keys) :=
        if negb (IsZero valueNonce) then
          let m := CollectAccountValue m keyNonce valueNonce in
          let ks := EncodeKeySource KEY_NONCE (HexToAddress ethAddr) zeroHash in
          (CollectKeySource m keyNonce ks, keys ++ [keyNonce])
        else (m, keys) in
      (m, Ok keys)
  end end end end.

Definition insertContractBytecodeToKV (m : MemDb) (keys : list NodeKey)
    (ethAddr : string) (bytecode : string)
  : MemDb * result (list NodeKey) :=
  let keyContractCode := KeyContractCode ethAddr in
  let keyContractLength := KeyContractLength ethAddr in
  let bi := HashContractBytecodeBigInt bytecode in
  let parsedBytecode := Go.TrimPrefix bytecode "0x" in
  let parsedBytecode :=
    if decide (String.length parsedBytecode mod 2 ≠ 0)%nat
    then "0" +:+ parsedBytecode else parsedBytecode in
  let bytecodeLength := (String.length parsedBytecode / 2)%nat in
  match ScalarToArrayBig (Some bi) with
  | Panic p => (m, Panic p)
  | Err e => (m, Err e)
  | Ok x =>
  match NodeValue8FromBigIntArray x with
  | Panic p => (m, Panic p)
  | Err e => (m, Err e)
  | Ok valueContractCode =>
  match ScalarToArrayBig (Some (Z.of_nat bytecodeLength)) with
  | Panic p => (m, Panic p)
  | Err e => (m, Err e)
  | Ok x =>
  match NodeValue8FromBigIntArray x with
  | Panic p => (m, Panic p)
  | Err e => (m, Err e)
  | Ok valueContractLength =>
      let '(m, keys) :=
        if negb (IsZero valueContractCode) then
          let m := CollectAccountValue m keyContractCode valueContractCode in
          let ks := EncodeKeySource SC_CODE (HexToAddress ethAddr) zeroHash in
          (CollectKeySource m keyContractCode ks, keys ++ [keyContractCode])
        else (m, keys) in
      let '(m, keys) :=
        if negb (IsZero valueContractLength) then
          let m := CollectAccountValue m keyContractLength valueContractLength in
          let ks := EncodeKeySource SC_LENGTH (HexToAddress ethAddr) zeroHash in
          (CollectKeySource m keyContractLength ks, keys ++ [keyContractLength])
        else (m, keys) in
      (m, Ok keys)
  end end end end.

(** [insertContractStorageToKV]: the loop [for k, v := range storage] over
    the entries in the order of the run. An error ends the call; what the
    loop has written stays in the store. *)
Fixpoint insertContractStorageToKV (m : MemDb) (keys : list NodeKey)
    (ethAddr : string) (storage : list (string * string))
  : MemDb * result (list NodeKey) :=
  match storage with
  | [] => (m, Ok keys)
  | (k, v) :: rest =>
      if decide (v = "") then insertContractStorageToKV m keys ethAddr rest
      else
        match KeyContractStorage ethAddr k with
        | Panic p => (m, Panic p)
        | Err e => (m, Err e)
        | Ok keyStoragePosition =>
            let val :=
              if Go.HasPrefix v "0x"
              then Go.SetString (Go.drop_chars 2 v) 16   (* v = v[2:]; base = 16 *)
              else Go.SetString v 10 in
            match ScalarToArrayBig val with
            | Panic p => (m, Panic p)
            | Err e => (m, Err e)
            | Ok x =>
            match NodeValue8FromBigIntArray x with
            | Panic p => (m, Panic p)
            | Err e => (m, Err e)
            | Ok parsedValue =>
                if negb (IsZero parsedValue) then
                  let m := CollectAccountValue m keyStoragePosition parsedValue in
                  match StrValToBigInt k with
                  | None => (m, Panic NilDereference)
                  | Some sp =>
                      let ks := EncodeKeySource SC_STORAGE (HexToAddress ethAddr)
                                                (BigToHash sp) in
                      insertContractStorageToKV
                        (CollectKeySource m keyStoragePosition ks)
                        (keys ++ [keyStoragePosition]) ethAddr rest
                  end
                else insertContractStorageToKV m keys ethAddr rest
            end end
        end
  end.

(** [processAccount]: the account state, then the bytecode when the account
    has code, then the storage when there is any. [a] is the account (the
    call dereferences it), [readCode] the outcome of
    [psr.ReadAccountCode(addr, inc, a.CodeHash)] with the code rendered in
    hexadecimal by [hexutils.BytesToHex], and [as_] the entries of the
    storage map in the order of the run. *)
Definition processAccount (m : MemDb) (a : smt.Account)
    (as_ : list (string * string)) (readCode : result string)
    (addr : Address) (keys : list NodeKey)
  : MemDb * result (list NodeKey) :=
  match insertAccountStateToKV m keys (AddressString addr)
          (Some (smt.Balance a)) (Some (smt.Nonce a)) with
  | (m, Panic p) => (m, Panic p)
  | (m, Err e) => (m, Err e)
  | (m, Ok keys) =>
      match readCode with
      | Panic p => (m, Panic p)
      | Err e => (m, Err e)
      | Ok ach =>
          let '(m, r) :=
            if decide (0 < String.length ach)%nat
            then insertContractBytecodeToKV m keys (AddressString addr) ("0x" +:+ ach)
            else (m, Ok keys) in
          match r with
          | Panic p => (m, Panic p)
          | Err e => (m, Err e)
          | Ok keys =>
              if decide (0 < length as_)%nat
              then insertContractStorageToKV m keys (AddressString addr) as_
              else (m, Ok keys)
          end
      end
  end.

End with_helpers.

End stages.

(** * Properties *)

Import utils db.

(** ** Scalars, limbs and bytes *)






(** ** The store *)

Section store_properties.
Context `{Helpers}.

(** The loop of [Get] over strings that all parse writes the parsed limbs
    over the array from index [i] on. *)
Lemma fill_values_parsed (n : nat) (strs : list string) (vals : list Z) :
  Forall2 (fun s v => ConvertHexToUint64 s = Ok v) strs vals ->
  forall (i : nat) (values : list Z),
    length values = n -> (i + length strs <= n)%nat ->
    fill_values n i strs values
    = Ok (take i values ++ vals ++ drop (i + length strs) values).
Proof.
  induction 1 as [|s v strs vals Hs _ IH]; intros i values Hlen Hi.
  - cbn. by rewrite Nat.add_0_r, take_drop.
  - cbn [fill_values length] in *. rewrite Hs.
    destruct (decide (i < n)%nat) as [Hlt|]; [|lia].
    rewrite IH by (rewrite ?length_insert; lia).
    f_equal.
    rewrite (take_S_r _ i v) by (apply list_lookup_insert_eq; lia).
    rewrite take_insert_ge by lia.
    rewrite drop_insert_lt by lia.
    rewrite <- app_assoc. cbn. by rewrite Nat.add_succ_r.
Qed.

(** C1 (as the code has it). A node hash that is absent from the store is
    not an error for [MemDb.Get]: the lookup of the missing key gives the nil
    slice, the loop does not run, and the all-zero 12-limb record is returned
    with a nil error. When the hash is present, [Get] returns the stored
    record: the twelve stored strings, parsed; in particular the record
    [Insert] was given, when the hexadecimal rendering of each limb parses
    back to the limb. *)
Theorem Get_absent_zero_present_stored (m : MemDb) (key : NodeKey) :
  (Db m !! ConvertArrayToHex (key_slice key) = None ->
   Get m key = Ok zeroNodeValue12)
  /\ (forall (strs : list string) (vals : list Z),
        Db m !! ConvertArrayToHex (key_slice key) = Some strs ->
        length strs = 12%nat ->
        Forall2 (fun s v => ConvertHexToUint64 s = Ok v) strs vals ->
        Get m key = Ok vals)
  /\ (forall value : list Z,
        length value = 12%nat ->
        Forall (fun v => ConvertHexToUint64 (ConvertUint64ToHex v) = Ok v) value ->
        Get (Insert m key value).1 key = Ok value).
Proof.
  assert (Hpresent : forall (m' : MemDb) (strs : list string) (vals : list Z),
             Db m' !! ConvertArrayToHex (key_slice key) = Some strs ->
             length strs = 12%nat ->
             Forall2 (fun s v => ConvertHexToUint64 s = Ok v) strs vals ->
             Get m' key = Ok vals).
  { intros m' strs vals Hk Hlen Hparse. unfold Get. rewrite Hk. cbn [default].
    rewrite (fill_values_parsed 12 strs vals Hparse) by (cbn; lia).
    rewrite Hlen. cbn [take drop zeroNodeValue12 replicate Nat.add].
    by rewrite app_nil_r. }
  split; [|split].
  - intros Hk. unfold Get. by rewrite Hk.
  - apply Hpresent.
  - intros value Hlen Hround.
    apply (Hpresent _ (ConvertUint64ToHex <$> value)).
    + cbn. apply lookup_insert_eq.
    + by rewrite length_fmap.
    + apply Forall2_fmap_l, Forall_Forall2_diag, Hround.
Qed.

(** C6. After [AddCode c], [GetCode] on the hash of [c] returns [c], whether
    the hash is given as the hash function returns it or already resized to
    32 bytes; the key the code is stored under is "0x" followed by the
    hexadecimal digits of the hash resized to 32 bytes, which is the hash
    with zero bytes in front when the hash has at most 32 bytes. *)
Theorem GetCode_AddCode (m : MemDb) (c : list Z) :
  let h := HashContractBytecodeBytes (Go.EncodeToString c) in
  let key := "0x" +:+ Go.EncodeToString (ResizeHashTo32BytesByPrefixingWithZeroes h) in
  GetCode (AddCode m c).1 h = Ok c
  /\ GetCode (AddCode m c).1 (ResizeHashTo32BytesByPrefixingWithZeroes h) = Ok c
  /\ DbCode (AddCode m c).1 = <[key := c]> (DbCode m)
  /\ ((length h <= 32)%nat ->
      length (ResizeHashTo32BytesByPrefixingWithZeroes h) = 32%nat
      /\ ResizeHashTo32BytesByPrefixingWithZeroes h
         = replicate (32 - length h) 0 ++ h).
Proof.
  intros h key.
  assert (Hidem : ResizeHashTo32BytesByPrefixingWithZeroes
                    (ResizeHashTo32BytesByPrefixingWithZeroes h)
                  = ResizeHashTo32BytesByPrefixingWithZeroes h).
  { unfold ResizeHashTo32BytesByPrefixingWithZeroes at 1.
    replace (32 - _)%nat with 0%nat; [done|].
    unfold ResizeHashTo32BytesByPrefixingWithZeroes.
    rewrite length_app, length_replicate. lia. }
  repeat split.
  - unfold GetCode, AddCode, HashContractBytecode. cbn [fst DbCode].
    fold h. by rewrite lookup_insert_eq.
  - unfold GetCode. rewrite Hidem.
    unfold AddCode, HashContractBytecode. cbn [fst DbCode].
    fold h. by rewrite lookup_insert_eq.
  - unfold ResizeHashTo32BytesByPrefixingWithZeroes.
    rewrite length_app, length_replicate. lia.
Qed.


End store_properties.

(** ** Value hashing *)

(** The eight 32-bit lanes of a scalar, least significant first, in the
    words of the specification ("scalar_to_8"). *)
Definition lanes32 (x : Z) : list Z :=
  (fun i => (x / 2 ^ (32 * i)) mod 2 ^ 32) <$> [0; 1; 2; 3; 4; 5; 6; 7].

(** The scalar whose 32-bit lanes are given. *)
Definition of_lanes32 (ls : list Z) : Z :=
  fold_right (fun l acc => l + 2 ^ 32 * acc) 0 ls.

Lemma lanes32_bounds (x : Z) : Forall (fun l => 0 <= l < 2 ^ 32) (lanes32 x).
Proof.
  unfold lanes32. apply Forall_fmap, Forall_forall. intros i _. cbn.
  apply Z.mod_pos_bound. lia.
Qed.

Lemma of_lanes32_lanes32 (x : Z) : 0 <= x < 2 ^ 256 -> of_lanes32 (lanes32 x) = x.
Proof.
  intros Hx. unfold of_lanes32, lanes32. cbn [fmap list_fmap fold_right].
  change (32 * 0) with 0. change (32 * 1) with 32.
  change (32 * 2) with (32 + 32). change (32 * 3) with (32 + 32 + 32).
  change (32 * 4) with (32 + 32 + 32 + 32).
  change (32 * 5) with (32 + 32 + 32 + 32 + 32).
  change (32 * 6) with (32 + 32 + 32 + 32 + 32 + 32).
  change (32 * 7) with (32 + 32 + 32 + 32 + 32 + 32 + 32).
  rewrite !Z.pow_add_r by lia. rewrite <- !Z.div_div by lia.
  change (2 ^ 0) with 1. rewrite Z.div_1_r.
  set (x1 := x / 2 ^ 32). set (x2 := x1 / 2 ^ 32). set (x3 := x2 / 2 ^ 32).
  set (x4 := x3 / 2 ^ 32). set (x5 := x4 / 2 ^ 32). set (x6 := x5 / 2 ^ 32).
  set (x7 := x6 / 2 ^ 32).
  pose proof (Z.div_mod x (2 ^ 32)). pose proof (Z.div_mod x1 (2 ^ 32)).
  pose proof (Z.div_mod x2 (2 ^ 32)). pose proof (Z.div_mod x3 (2 ^ 32)).
  pose proof (Z.div_mod x4 (2 ^ 32)). pose proof (Z.div_mod x5 (2 ^ 32)).
  pose proof (Z.div_mod x6 (2 ^ 32)).
  assert (Hx7 : 0 <= x7 < 2 ^ 32).
  { unfold x7, x6, x5, x4, x3, x2, x1. rewrite !Z.div_div by lia.
    split; [apply Z.div_pos; lia|]. apply Z.div_lt_upper_bound; lia. }
  rewrite (Z.mod_small x7) by lia.
  fold x1 in H. fold x2 in H0. fold x3 in H1. fold x4 in H2. fold x5 in H3.
  fold x6 in H4. fold x7 in H5. lia.
Qed.

Lemma ScalarToArrayBig_lanes32 (x : Z) : ScalarToArrayBig (Some x) = Ok (lanes32 x).
Proof.
  unfold ScalarToArrayBig, lanes32. f_equal. apply list_fmap_ext.
  intros ? i Hi. apply list_elem_of_lookup_2 in Hi.
  assert (0 <= i) by (repeat (apply elem_of_cons in Hi as [->|Hi]; [lia|]);
                      by apply elem_of_nil in Hi).
  rewrite Z.land_ones, Z.shiftr_div_pow2 by lia. done.
Qed.

Import smt.

Section value_hashing.
Context `{Helpers}.

Lemma NodeValue8FromBigInt_lanes32 (x : Z) :
  NodeValue8FromBigInt (Some x) = Ok (lanes32 x).
Proof.
  unfold NodeValue8FromBigInt. rewrite ScalarToArrayBig_lanes32.
  unfold NodeValue8FromBigIntArray.
  destruct (decide (length (lanes32 x) = 8%nat)) as [_|Hn]; [|by destruct Hn].
  f_equal. rewrite <- (list_fmap_id (lanes32 x)) at 2.
  apply Forall_fmap_ext. eapply Forall_impl; [apply lanes32_bounds|].
  intros l Hl. unfold id. cbv beta in Hl. apply Z.mod_small. lia.
Qed.

(** C7. For a value string that parses to a 256-bit scalar [x],
    [calcHashVal] returns the eight 32-bit lanes of [x] (each below [2^32],
    and recomposing to [x]) together with the hash of these eight limbs
    under [BranchCapacity]: the value hash is taken with the branch
    capacity as its domain tag. *)
Theorem calcHashVal_branch_capacity (v : string) (x : Z) :
  convertStringToBigInt v = Some x ->
  0 <= x < 2 ^ 256 ->
  calcHashVal v = Ok (lanes32 x, Hash (ToUintArray (lanes32 x)) BranchCapacity)
  /\ length (lanes32 x) = 8%nat
  /\ Forall (fun l => 0 <= l < 2 ^ 32) (lanes32 x)
  /\ of_lanes32 (lanes32 x) = x.
Proof.
  intros Hv Hx. split; [|split; [done|split]].
  - unfold calcHashVal. rewrite Hv, ScalarToArrayBig_lanes32.
    pose proof (NodeValue8FromBigInt_lanes32 x) as Hn.
    unfold NodeValue8FromBigInt in Hn. rewrite ScalarToArrayBig_lanes32 in Hn.
    by rewrite Hn.
  - apply lanes32_bounds.
  - by apply of_lanes32_lanes32.
Qed.

End value_hashing.

(** ** [SetStorage] and the key sources *)

(** Everything of the store but the key-source map is as it was. *)
Definition same_tree (m m' : MemDb) : Prop :=
  db.Db m' = db.Db m /\ DbAccVal m' = DbAccVal m /\ DbHashKey m' = DbHashKey m
  /\ DbCode m' = DbCode m /\ LastRoot m' = LastRoot m /\ Depth m' = Depth m.

(** A call that writes or deletes a key source. *)
Definition ks_call (c : call) : Prop :=
  match c with
  | CallInsertKeySource _ _ | CallDeleteKeySource _ => True
  | _ => False
  end.

(** What a recorded key-source call does to the key-source map. *)
Definition apply_call `{Helpers} (ks : gmap string (list Z)) (c : call)
  : gmap string (list Z) :=
  match c with
  | CallInsertKeySource k v => <[ConvertArrayToHex (key_slice k) := v]> ks
  | CallDeleteKeySource k => delete (ConvertArrayToHex (key_slice k)) ks
  | _ => ks
  end.

Definition replay `{Helpers} (evs : list call) (ks : gmap string (list Z))
  : gmap string (list Z) :=
  fold_left apply_call evs ks.

(** The key-source call [SetStorage] makes for a batched key and value: a
    delete for a zero value, an insert otherwise. *)
Definition ks_rule (kv : NodeKey * list Z) (c : call) : Prop :=
  if IsZero kv.2 then c = CallDeleteKeySource kv.1
  else exists ks, c = CallInsertKeySource kv.1 ks.

(** The batch [b'] extends [b] by keys and values whose key-source calls,
    in order, are [evs]. *)
Definition extends (b b' : list NodeKey * list (list Z)) (evs : list call) : Prop :=
  exists dk dv, b' = (b.1 ++ dk, b.2 ++ dv) /\ length dk = length dv
                /\ Forall2 ks_rule (zip dk dv) evs.

(** The calls made between the states [s] and [s'] of a run. *)
Definition new_calls (s s' : SMT) : list call :=
  drop (length (calls s)) (calls s').

Definition is_InsertBatch (c : call) : bool :=
  match c with CallInsertBatch _ _ => true | _ => false end.

Section set_storage_properties.
Context `{Helpers} `{Engine}.
Variable ctx : context.
Variable logPrefix : string.

(** What holds of every step of the three loops of [SetStorage], run from
    [s] with outcome [out]: the calls made are key-source calls, the store
    changes in its key-source map only, by these calls; a poll of the
    context that finds it done ends the run with the context error; and [Q]
    holds of a value returned and the calls made. *)
Definition frame {A} (Q : A -> list call -> Prop) (s : SMT) (out : SMT * result A)
  : Prop :=
  exists evs,
    calls out.1 = calls s ++ evs
    /\ Forall ks_call evs
    /\ same_tree (Db s) (Db out.1)
    /\ DbKeySource (Db out.1) = replay evs (DbKeySource (Db s))
    /\ (polls s <= polls out.1)%nat
    /\ (forall i, (polls s <= i < polls out.1)%nat -> ctx i = true ->
                  out.2 = Err (ErrContextDone logPrefix))
    /\ match out.2 with Ok a => Q a evs | _ => True end.

Lemma same_tree_refl (m : MemDb) : same_tree m m.
Proof. by repeat split. Qed.

Lemma same_tree_trans (m1 m2 m3 : MemDb) :
  same_tree m1 m2 -> same_tree m2 m3 -> same_tree m1 m3.
Proof. unfold same_tree. intuition congruence. Qed.

(** Prove a [frame] for the calls [evs]: seven goals, in the order of the
    definition. *)
Ltac frame_with evs :=
  refine (ex_intro _ evs
            (conj _ (conj _ (conj _ (conj _ (conj _ (conj _ _)))))));
  cbn [fst snd smt.Db smt.calls smt.polls].

Lemma frame_lift {A} (Q : A -> list call -> Prop) (r : result A) (s : SMT) :
  (forall a, r = Ok a -> Q a []) -> frame Q s (lift r s).
Proof.
  intros HQ. unfold lift. frame_with (@nil call).
  - by rewrite app_nil_r.
  - constructor.
  - apply same_tree_refl.
  - done.
  - lia.
  - intros i Hi. lia.
  - destruct r; auto.
Qed.

Lemma frame_ret {A} (Q : A -> list call -> Prop) (a : A) (s : SMT) :
  Q a [] -> frame Q s (ret a s).
Proof. intros HQ. apply (frame_lift Q (Ok a)). by intros ? [= <-]. Qed.

Lemma frame_bind {A B} (Q1 : A -> list call -> Prop)
    (Q : B -> list call -> Prop) (m : M A) (f : A -> M B) (s : SMT) :
  frame Q1 s (m s) ->
  (forall a e1 s1, Q1 a e1 ->
     frame (fun b e2 => Q b (e1 ++ e2)) s1 (f a s1)) ->
  frame Q s (bind m f s).
Proof.
  intros (e1 & Hc1 & Hk1 & Ht1 & Hr1 & Hp1 & Hd1 & HQ1) Hf. unfold bind.
  destruct (m s) as [s1 [a|e|p]] eqn:Em; cbn [fst snd] in *.
  - destruct (Hf a e1 s1 HQ1) as (e2 & Hc2 & Hk2 & Ht2 & Hr2 & Hp2 & Hd2 & HQ2).
    frame_with (e1 ++ e2).
    + by rewrite Hc2, Hc1, app_assoc.
    + by apply Forall_app.
    + by apply same_tree_trans with (Db s1).
    + rewrite Hr2, Hr1. unfold replay. by rewrite fold_left_app.
    + lia.
    + intros i Hi Hctx. destruct (decide (i < polls s1)%nat) as [Hlt|Hge].
      * by specialize (Hd1 i ltac:(lia) Hctx).
      * apply (Hd2 i); [lia|done].
    + done.
  - frame_with e1; try done.
    intros i Hi Hctx. specialize (Hd1 i Hi Hctx). by injection Hd1 as ->.
  - frame_with e1; try done.
    intros i Hi Hctx. by specialize (Hd1 i Hi Hctx).
Qed.

Lemma frame_check_done (s : SMT) :
  frame (fun _ evs => evs = []) s (check_done ctx logPrefix s).
Proof.
  unfold check_done. frame_with (@nil call).
  - by rewrite app_nil_r.
  - constructor.
  - apply same_tree_refl.
  - done.
  - lia.
  - intros i Hi Hctx. assert (i = polls s) as -> by lia. by rewrite Hctx.
  - by destruct (ctx (polls s)).
Qed.

Lemma frame_InsertKeySource (k : NodeKey) (kind : Z) (addr hash : list Z) (s : SMT) :
  frame (fun _ evs => exists ks, evs = [CallInsertKeySource k ks]) s
        (InsertKeySource k kind addr hash s).
Proof.
  unfold InsertKeySource, on_store. cbn.
  frame_with [CallInsertKeySource k (EncodeKeySource kind addr hash)]; cbn.
  - done.
  - by repeat constructor.
  - by repeat split.
  - done.
  - lia.
  - intros i Hi. lia.
  - eauto.
Qed.

Lemma frame_DeleteKeySource (k : NodeKey) (s : SMT) :
  frame (fun _ evs => evs = [CallDeleteKeySource k]) s (DeleteKeySource k s).
Proof.
  unfold DeleteKeySource, on_store. cbn.
  frame_with [CallDeleteKeySource k]; cbn.
  - done.
  - by repeat constructor.
  - by repeat split.
  - done.
  - lia.
  - intros i Hi. lia.
  - done.
Qed.

Lemma frame_weaken {A} (Q Q' : A -> list call -> Prop) (s : SMT) (out : SMT * result A) :
  (forall a evs, Q a evs -> Q' a evs) -> frame Q s out -> frame Q' s out.
Proof.
  intros HQ (evs & Hc & Hk & Ht & Hr & Hp & Hd & HQ1).
  frame_with evs; try done.
  destruct (out.2); auto.
Qed.

Lemma extends_refl (b : list NodeKey * list (list Z)) : extends b b [].
Proof.
  exists [], []. rewrite !app_nil_r. repeat split; [by destruct b|constructor].
Qed.

Lemma extends_trans (b1 b2 b3 : list NodeKey * list (list Z)) (e1 e2 : list call) :
  extends b1 b2 e1 -> extends b2 b3 e2 -> extends b1 b3 (e1 ++ e2).
Proof.
  intros (dk1 & dv1 & -> & Hl1 & H1) (dk2 & dv2 & -> & Hl2 & H2). cbn.
  exists (dk1 ++ dk2), (dv1 ++ dv2). rewrite !app_assoc. repeat split.
  - rewrite !length_app. lia.
  - rewrite (zip_with_app pair dk1 dk2 dv1 dv2 Hl1). by apply Forall2_app.
Qed.

Lemma frame_batchValue (b : list NodeKey * list (list Z)) (key : NodeKey)
    (value : option Z) (kind : Z) (addr : list Z) (hash : result (list Z))
    (s : SMT) :
  frame (extends b) s (batchValue b key value kind addr hash s).
Proof.
  unfold batchValue.
  apply frame_bind with
    (Q1 := fun (r : list (list Z) * bool) evs =>
             evs = [] /\ exists v, r = (b.2 ++ [v], IsZero v)).
  { apply frame_lift. intros [vals' d] Heq. split; [done|].
    unfold appendToValuesBatchStorageBigInt in Heq.
    destruct (NodeValue8FromBigInt value) as [v| |]; [|done..].
    injection Heq as <- <-. by exists v. }
  intros [vals' d] e1 s1 (-> & v & [= -> ->]).
  assert (Hone : forall c, ks_rule (key, v) c ->
                           extends b (b.1 ++ [key], b.2 ++ [v]) [c]).
  { intros c Hc. exists [key], [v]. repeat split. by repeat constructor. }
  destruct (IsZero v) eqn:Hz; cbn [negb].
  - apply frame_bind with (Q1 := fun (_ : unit) evs => evs = [CallDeleteKeySource key]);
      [apply frame_DeleteKeySource|].
    intros _ e1 s2 ->. apply frame_ret. cbn. apply Hone.
    unfold ks_rule. cbn [fst snd]. by rewrite Hz.
  - apply frame_bind with (Q1 := fun (_ : list Z) evs => evs = []);
      [by apply frame_lift|].
    intros h e1 s2 ->.
    apply frame_bind with
      (Q1 := fun (_ : unit) evs => exists ks, evs = [CallInsertKeySource key ks]);
      [apply frame_InsertKeySource|].
    intros _ e1 s3 [ks ->]. apply frame_ret. cbn. apply Hone.
    unfold ks_rule. cbn [fst snd]. rewrite Hz. by exists ks.
Qed.

Lemma frame_forM {X} (body : list NodeKey * list (list Z) -> X ->
                              M (list NodeKey * list (list Z)))
    (xs : list X) :
  (forall b x s, frame (extends b) s (body b x s)) ->
  forall b s, frame (extends b) s (forM body b xs s).
Proof.
  intros Hbody. induction xs as [|x xs IH]; intros b s; cbn [forM].
  - apply frame_ret, extends_refl.
  - apply frame_bind with (Q1 := extends b); [apply Hbody|].
    intros b1 e1 s1 Hb1. eapply frame_weaken; [|apply IH].
    intros b2 e2 Hb2. by eapply extends_trans.
Qed.

(** Two batched values in a row extend the batch. *)
Lemma frame_batchValue2 (b : list NodeKey * list (list Z))
    (key1 key2 : NodeKey) (v1 v2 : option Z) (kind1 kind2 : Z)
    (addr : list Z) (s : SMT) :
  frame (extends b) s
    (bind (batchValue b key1 v1 kind1 addr (Ok zeroHash))
          (fun b1 => batchValue b1 key2 v2 kind2 addr (Ok zeroHash)) s).
Proof.
  apply frame_bind with (Q1 := extends b); [apply frame_batchValue|].
  intros b1 e1 s1 Hb1. eapply frame_weaken; [|apply frame_batchValue].
  intros b2 e2 Hb2. by eapply extends_trans.
Qed.

Lemma frame_account (b : list NodeKey * list (list Z))
    (entry : list Z * option Account) (s : SMT) :
  frame (extends b) s (setStorage_account ctx logPrefix b entry s).
Proof.
  destruct entry as [addr acc]. unfold setStorage_account.
  apply frame_bind with (Q1 := fun (_ : unit) evs => evs = []);
    [apply frame_check_done|].
  intros _ e1 s1 ->. cbn [app]. apply frame_batchValue2.
Qed.

Lemma frame_code (b : list NodeKey * list (list Z))
    (entry : list Z * string) (s : SMT) :
  frame (extends b) s (setStorage_code ctx logPrefix b entry s).
Proof.
  destruct entry as [addr code]. unfold setStorage_code.
  apply frame_bind with (Q1 := fun (_ : unit) evs => evs = []);
    [apply frame_check_done|].
  intros _ e1 s1 ->. cbn [app].
  apply frame_bind with (Q1 := fun (_ : Z * nat) evs => evs = []);
    [by apply frame_lift|].
  intros [bi len] e1 s2 ->. cbn [app]. apply frame_batchValue2.
Qed.

Lemma frame_slot (addr : list Z) (b : list NodeKey * list (list Z))
    (entry : string * string) (s : SMT) :
  frame (extends b) s (setStorage_slot addr b entry s).
Proof.
  destruct entry as [k v]. unfold setStorage_slot.
  apply frame_bind with (Q1 := fun (_ : NodeKey) evs => evs = []);
    [by apply frame_lift|].
  intros key e1 s1 ->. cbn [app]. apply frame_batchValue.
Qed.

Lemma frame_storage (b : list NodeKey * list (list Z))
    (entry : list Z * list (string * string)) (s : SMT) :
  frame (extends b) s (setStorage_storage ctx logPrefix b entry s).
Proof.
  destruct entry as [addr storage]. unfold setStorage_storage.
  apply frame_bind with (Q1 := fun (_ : unit) evs => evs = []);
    [apply frame_check_done|].
  intros _ e1 s1 ->. cbn [app]. apply frame_forM. apply frame_slot.
Qed.

Lemma frame_collect (accChanges : list (list Z * option Account))
    (codeChanges : list (list Z * string))
    (storageChanges : list (list Z * list (string * string))) (s : SMT) :
  frame (extends ([], [])) s
    (setStorage_collect ctx logPrefix accChanges codeChanges storageChanges s).
Proof.
  unfold setStorage_collect.
  apply frame_bind with (Q1 := extends ([], []));
    [apply frame_forM, frame_account|].
  intros b1 e1 s1 Hb1.
  apply frame_bind with (Q1 := fun b2 e2 => extends ([], []) b2 (e1 ++ e2)).
  { eapply frame_weaken; [|apply frame_forM, frame_code].
    intros b2 e2 Hb2. by eapply extends_trans. }
  intros b2 e2 s2 Hb2.
  eapply frame_weaken; [|apply frame_forM, frame_storage].
  intros b3 e3 Hb3. cbn beta. rewrite app_assoc. by eapply extends_trans.
Qed.

Lemma new_calls_app (s s' : SMT) (evs : list call) :
  calls s' = calls s ++ evs -> new_calls s s' = evs.
Proof. intros Hc. unfold new_calls. rewrite Hc. apply drop_app_length. Qed.

Lemma ks_calls_no_InsertBatch (evs : list call) :
  Forall ks_call evs -> existsb is_InsertBatch evs = false.
Proof.
  induction 1 as [|c evs Hc _ IH]; [done|].
  cbn. rewrite IH. by destruct c.
Qed.

(** How a run of [SetStorage] goes: the early return, or the three loops
    followed, when they succeed, by the one call of [InsertBatch]. *)
Lemma SetStorage_run (accChanges : list (list Z * option Account))
    (codeChanges : list (list Z * string))
    (storageChanges : list (list Z * list (string * string)))
    (s s' : SMT) (r : result (option (list NodeKey) * option (list (list Z)))) :
  SetStorage ctx logPrefix accChanges codeChanges storageChanges s = (s', r) ->
  (storageChanges = [] /\ accChanges = [] /\ codeChanges = []
   /\ s' = s /\ r = Ok (None, None))
  \/ exists s1 r1,
       setStorage_collect ctx logPrefix accChanges codeChanges storageChanges s
       = (s1, r1)
       /\ match r1 with
          | Ok (keys, vals) =>
              s' = {| Db := (InsertBatch (Db s1) keys vals).1;
                      calls := calls s1 ++ [CallInsertBatch keys vals];
                      polls := polls s1 |}
              /\ r = match (InsertBatch (Db s1) keys vals).2 with
                     | Ok _ => Ok (Some keys, Some vals)
                     | Err e => Err e
                     | Panic p => Panic p
                     end
          | Err e => s' = s1 /\ r = Err e
          | Panic p => s' = s1 /\ r = Panic p
          end.
Proof.
  unfold SetStorage. destruct (decide _) as [(Hs & Ha & Hc)|_].
  - intros [= <- <-]. left.
    by rewrite (nil_length_inv _ Hs), (nil_length_inv _ Ha), (nil_length_inv _ Hc).
  - intros Hrun. right. unfold bind in Hrun.
    destruct (setStorage_collect _ _ _ _ _ s) as [s1 r1] eqn:Ecol.
    exists s1, r1. split; [done|].
    destruct r1 as [[keys vals]|e|p]; [|by injection Hrun as <- <-..].
    unfold call_InsertBatch, ret in Hrun.
    destruct (InsertBatch (Db s1) keys vals) as [m' [[]|e|p]];
      by injection Hrun as <- <-.
Qed.


(** C5 (as the code has it). When one of the polls of the context made by
    [SetStorage] finds it done, the run returns the context error and
    [InsertBatch] is not called, so the tree part of the store is as before
    the call. Nothing is rolled back: the key-source map is the map before the
    call with every key-source call of the run applied. *)
Theorem SetStorage_context_done
    (accChanges : list (list Z * option Account))
    (codeChanges : list (list Z * string))
    (storageChanges : list (list Z * list (string * string)))
    (s s' : SMT) (r : result (option (list NodeKey) * option (list (list Z)))) :
  SetStorage ctx logPrefix accChanges codeChanges storageChanges s = (s', r) ->
  (exists i, (polls s <= i < polls s')%nat /\ ctx i = true) ->
  r = Err (ErrContextDone logPrefix)
  /\ existsb is_InsertBatch (new_calls s s') = false
  /\ same_tree (Db s) (Db s')
  /\ DbKeySource (Db s') = replay (new_calls s s') (DbKeySource (Db s)).
Proof.
  intros Hrun (i & Hi & Hctx).
  apply SetStorage_run in Hrun as [(_ & _ & _ & -> & _)|(s1 & r1 & Hcol & Hr1)];
    [lia|].
  pose proof (frame_collect accChanges codeChanges storageChanges s) as Hf.
  rewrite Hcol in Hf.
  destruct Hf as (evs & Hc & Hk & Ht & Hr & Hp & Hd & _). cbn [fst snd] in *.
  assert (Hs1 : polls s' = polls s1).
  { destruct r1 as [[keys vals]|e|p]; destruct Hr1 as [-> _]; done. }
  specialize (Hd i ltac:(lia) Hctx). subst r1. destruct Hr1 as [-> ->].
  rewrite (new_calls_app _ _ _ Hc).
  by rewrite ks_calls_no_InsertBatch.
Qed.

(** C8. When [SetStorage] returns an error and has not called [InsertBatch],
    the last root and the tree nodes of the store, and with them the account
    values, the hash-key map, the code map and the depth, are what they were
    before the call. *)
Theorem SetStorage_error_keeps_tree
    (accChanges : list (list Z * option Account))
    (codeChanges : list (list Z * string))
    (storageChanges : list (list Z * list (string * string)))
    (s s' : SMT) (e : error) :
  SetStorage ctx logPrefix accChanges codeChanges storageChanges s = (s', Err e) ->
  existsb is_InsertBatch (new_calls s s') = false ->
  LastRoot (Db s') = LastRoot (Db s)
  /\ db.Db (Db s') = db.Db (Db s)
  /\ same_tree (Db s) (Db s').
Proof.
  intros Hrun Hno.
  apply SetStorage_run in Hrun as [(_ & _ & _ & _ & [=])|(s1 & r1 & Hcol & Hr1)].
  pose proof (frame_collect accChanges codeChanges storageChanges s) as Hf.
  rewrite Hcol in Hf.
  destruct Hf as (evs & Hc & Hk & Ht & _). cbn [fst snd] in *.
  destruct r1 as [[keys vals]|e1|p].
  - destruct Hr1 as [-> _]. exfalso.
    rewrite (new_calls_app _ _ (evs ++ [CallInsertBatch keys vals])) in Hno
      by (cbn; by rewrite Hc, app_assoc).
    rewrite existsb_app in Hno. cbn in Hno.
    by rewrite orb_true_r in Hno.
  - destruct Hr1 as [-> _]. destruct Ht as (? & ? & ? & ? & ? & ?).
    by repeat split.
  - by destruct Hr1.
Qed.

(** C10. With the three change maps empty, [SetStorage] returns nil slices
    and a nil error from the state it was called in: no call is made on the
    store or on the tree, the context is not polled, and the store is the
    same. *)
Theorem SetStorage_nothing_to_do (s : SMT) :
  SetStorage ctx logPrefix [] [] [] s = (s, Ok (None, None))
  /\ new_calls s (SetStorage ctx logPrefix [] [] [] s).1 = []
  /\ Db (SetStorage ctx logPrefix [] [] [] s).1 = Db s.
Proof.
  assert (Hrun : SetStorage ctx logPrefix [] [] [] s = (s, Ok (None, None))).
  { unfold SetStorage. by destruct (decide _) as [_|[]]. }
  rewrite Hrun. repeat split. unfold new_calls. cbn. by rewrite drop_all.
Qed.

End set_storage_properties.

(** ** [SetContractStorage]: the hashing stage *)

Definition is_ok {A} (r : result A) : bool :=
  match r with Ok _ => true | _ => false end.

(** The slots of the walk [storageKeys] whose value is not empty. *)
Definition nonempty_slots (storage : gmap string string) (ks : list string)
  : gset string :=
  list_to_set (filter (fun k => storage_get storage k ≠ "") ks).

(** The keys a worker has written: the buffer slots that are not empty. *)
Definition written (b : buffers) : gset string :=
  list_to_set (filter (fun k => k ≠ "") (keyArr b)).

Section contract_storage.
Context `{Helpers}.
Variable storage : gmap string string.

(** The two maps of the specification: one entry per slot whose value string
    is not empty, computed by [calcHashVal]. *)
Definition expected_chm : gmap string (option (list Z)) :=
  omap (fun v => if decide (v = "") then None
                 else match calcHashVal v with
                      | Ok (c, _) => Some (Some c)
                      | _ => None
                      end) storage.

Definition expected_vhm : gmap string (list Z) :=
  omap (fun v => if decide (v = "") then None
                 else match calcHashVal v with
                      | Ok (_, h) => Some h
                      | _ => None
                      end) storage.

(** Slot [k] has a value that is not empty and hashes to [(c, h)]. *)
Definition entry (k : string) (c h : list Z) : Prop :=
  storage_get storage k ≠ "" /\ calcHashVal (storage_get storage k) = Ok (c, h).

(** The maps [m] hold the expected entry of every slot of [W], and nothing
    else. *)
Definition maps_upto (W : gset string) (m : maps) : Prop :=
  forall k,
    (k ∈ W -> m.1 !! k = expected_chm !! k /\ m.2 !! k = expected_vhm !! k)
    /\ (k ∉ W -> m.1 !! k = None /\ m.2 !! k = None).

Lemma entry_expected (k : string) (c h : list Z) :
  entry k c h ->
  expected_chm !! k = Some (Some c) /\ expected_vhm !! k = Some h.
Proof.
  intros [Hne Hcalc]. unfold expected_chm, expected_vhm.
  rewrite !lookup_omap. unfold storage_get in *.
  destruct (storage !! k) as [v|]; [|done]. cbn in *.
  destruct (decide (v = "")); [done|]. by rewrite Hcalc.
Qed.

Lemma maps_upto_empty : maps_upto ∅ (∅, ∅).
Proof.
  intros k. split; [by intros ?%not_elem_of_empty|].
  intros _. cbn. by rewrite !lookup_empty.
Qed.

Lemma maps_upto_insert (W : gset string) (m : maps) (k : string) (c h : list Z) :
  entry k c h -> maps_upto W m ->
  maps_upto ({[k]} ∪ W) (<[k := Some c]> m.1, <[k := h]> m.2).
Proof.
  intros Hent Hm k'. destruct (entry_expected k c h Hent) as [Hc Hh].
  destruct (Hm k') as [Hin Hout]. cbn [fst snd].
  destruct (decide (k = k')) as [<-|Hne].
  - rewrite !lookup_insert_eq. split; [by rewrite Hc, Hh|].
    intros Hk. destruct Hk. apply elem_of_union_l. by apply elem_of_singleton.
  - rewrite !lookup_insert_ne by done. split; intros Hk'.
    + apply Hin. apply elem_of_union in Hk' as [Hk'|Hk']; [|done].
      by apply elem_of_singleton in Hk'.
    + apply Hout. intros Hk. apply Hk'. by apply elem_of_union_r.
Qed.

Lemma maps_upto_proper (W W' : gset string) (m : maps) :
  W = W' -> maps_upto W m -> maps_upto W' m.
Proof. by intros ->. Qed.

Lemma maps_upto_unique (W : gset string) (m m' : maps) :
  maps_upto W m -> maps_upto W m' -> m = m'.
Proof.
  intros Hm Hm'. destruct m as [m1 m2], m' as [m1' m2'].
  f_equal; apply map_eq; intros k;
    destruct (Hm k) as [Hin Hout], (Hm' k) as [Hin' Hout'];
    destruct (decide (k ∈ W)) as [Hk|Hk]; cbn in *.
  - destruct (Hin Hk), (Hin' Hk). congruence.
  - destruct (Hout Hk), (Hout' Hk). congruence.
  - destruct (Hin Hk), (Hin' Hk). congruence.
  - destruct (Hout Hk), (Hout' Hk). congruence.
Qed.

(** Every value of the map that is not empty is hashed without error. *)
Definition values_ok : Prop :=
  map_Forall (fun _ v => v = "" \/ is_ok (calcHashVal v) = true) storage.

Lemma values_ok_entry (k : string) :
  values_ok -> storage_get storage k ≠ "" ->
  exists c h, entry k c h.
Proof.
  intros Hok Hne. unfold entry, storage_get in *.
  destruct (storage !! k) as [v|] eqn:Hk; [|done]. cbn in *.
  destruct (Hok k v Hk) as [->|Hv]; [done|].
  destruct (calcHashVal v) as [[c h]| |]; [|done..]. by exists c, h.
Qed.

Lemma nonempty_slots_cons (k : string) (ks : list string) :
  nonempty_slots storage (k :: ks)
  = if decide (storage_get storage k = "") then nonempty_slots storage ks
    else {[k]} ∪ nonempty_slots storage ks.
Proof.
  unfold nonempty_slots. rewrite filter_cons.
  destruct (decide (storage_get storage k ≠ "")) as [Hne|He];
    destruct (decide (storage_get storage k = "")); done.
Qed.

(** The sequential loop fills the maps with the entries of its slots. *)
Lemma sequential_loop_spec (ks : list string) :
  values_ok ->
  forall (W : gset string) (m : maps),
    maps_upto W m ->
    exists m', sequential_loop storage ks m = Ok m'
               /\ maps_upto (nonempty_slots storage ks ∪ W) m'.
Proof.
  intros Hok. induction ks as [|k ks IH]; intros W m Hm; cbn [sequential_loop].
  - exists m. split; [done|]. eapply maps_upto_proper; [|done].
    unfold nonempty_slots. cbn. by rewrite (left_id_L ∅ (∪)).
  - rewrite nonempty_slots_cons.
    destruct (decide (storage_get storage k = "")) as [He|Hne]; [by apply IH|].
    destruct (values_ok_entry k Hok Hne) as (c & h & Hent).
    destruct Hent as [Hne' Hcalc]. rewrite Hcalc.
    destruct (IH ({[k]} ∪ W) (<[k:=Some c]> m.1, <[k:=h]> m.2)) as (m' & Hrun & Hm').
    { by apply maps_upto_insert. }
    exists m'. split; [done|]. eapply maps_upto_proper; [|done].
    rewrite (assoc_L (∪)). f_equal. apply (comm_L (∪)).
Qed.

(** A buffer is sound: every slot with a key holds the entry of that key,
    and the key is one of the walk. *)
Definition sound (ks : list string) (b : buffers) : Prop :=
  forall i k,
    keyArr b !! i = Some k -> k ≠ "" ->
    k ∈ ks /\ exists c h, entry k c h /\ cVArr b !! i = Some (Some c)
                          /\ hashArr b !! i = Some h.

(** The merge of a sound buffer adds the entries of the keys written. *)
Lemma merge_buffer_spec (ks : list string) (b : buffers) :
  sound ks b ->
  forall (rest : list string) (j : nat) (W : gset string) (m : maps),
    (forall i k, rest !! i = Some k -> keyArr b !! (j + i)%nat = Some k) ->
    maps_upto W m ->
    exists m', merge_buffer b j rest m = Ok m'
               /\ maps_upto (list_to_set (filter (fun k => k ≠ "") rest) ∪ W) m'.
Proof.
  intros Hsound rest. induction rest as [|k rest IH]; intros j W m Hrest Hm;
    cbn [merge_buffer].
  - exists m. split; [done|]. eapply maps_upto_proper; [|done].
    cbn. by rewrite (left_id_L ∅ (∪)).
  - assert (Hrest' : forall i k', rest !! i = Some k' ->
                                  keyArr b !! (S j + i)%nat = Some k').
    { intros i k' Hi. specialize (Hrest (S i) k' Hi).
      by rewrite Nat.add_succ_r in Hrest. }
    rewrite filter_cons.
    destruct (decide (k = "")) as [->|Hne].
    + destruct (decide ("" ≠ "")) as [?|_]; [done|]. by apply IH.
    + destruct (decide (k ≠ "")) as [_|?]; [|done].
      pose proof (Hrest 0%nat k eq_refl) as Hk. rewrite Nat.add_0_r in Hk.
      destruct (Hsound j k Hk Hne) as (_ & c & h & Hent & -> & ->).
      destruct (IH (S j) ({[k]} ∪ W) (<[k:=Some c]> m.1, <[k:=h]> m.2))
        as (m' & Hrun & Hm'); [done|by apply maps_upto_insert|].
      exists m'. split; [done|]. eapply maps_upto_proper; [|done].
      rewrite list_to_set_cons.
      rewrite (assoc_L (∪)). f_equal. apply (comm_L (∪)).
Qed.

Lemma merge_all_spec (ks : list string) (bs : list buffers) :
  Forall (sound ks) bs ->
  forall (W : gset string) (m : maps),
    maps_upto W m ->
    exists m', merge_all bs m = Ok m'
               /\ maps_upto (⋃ (written <$> bs) ∪ W) m'.
Proof.
  induction 1 as [|b bs Hb _ IH]; intros W m Hm; cbn [merge_all].
  - exists m. split; [done|]. eapply maps_upto_proper; [|done].
    cbn. by rewrite (left_id_L ∅ (∪)).
  - destruct (merge_buffer_spec ks b Hb (keyArr b) 0 W m) as (m1 & -> & Hm1);
      [done|done|].
    destruct (IH _ m1 Hm1) as (m' & Hrun & Hm').
    exists m'. split; [done|]. eapply maps_upto_proper; [|done].
    cbn [fmap list_fmap union_list foldr]. fold (written b).
    rewrite (assoc_L (∪)). f_equal. apply (comm_L (∪)).
Qed.

End contract_storage.

(** The buffer size is enough for a worker that has written [count] entries
    and is about to write one more for an index below [n]. *)
Lemma count_below_operationsPerCpu (n c count j : nat) :
  (0 < c)%nat -> (count * c <= j)%nat -> (j < n)%nat ->
  (count < operationsPerCpu n c)%nat.
Proof.
  intros Hc Hcount Hj. unfold operationsPerCpu.
  pose proof (Nat.div_mod_eq n c) as Hdm.
  pose proof (Nat.mod_upper_bound n c ltac:(lia)) as Hmod.
  destruct (decide (n mod c = 0)%nat) as [H0|Hpos]; nia.
Qed.

Section workers.
Context `{Helpers}.
Variable storage : gmap string string.
Variable keys : list string.
Variable c : nat.
Hypothesis c_pos : (0 < c)%nat.

(** The state of worker [cpuI] before iteration [t] of its loop, at index
    [cpuI + t * c], with [count] entries written: the buffers have the
    allocated size, are sound, and hold, below [count], the key of every
    index visited whose value is not empty, and nothing but keys whose value
    was hashed. *)
Definition wstate (cpuI t count : nat) (b : buffers) : Prop :=
  length (keyArr b) = operationsPerCpu (length keys) c
  /\ length (cVArr b) = operationsPerCpu (length keys) c
  /\ length (hashArr b) = operationsPerCpu (length keys) c
  /\ (count <= t)%nat
  /\ (count <= operationsPerCpu (length keys) c)%nat
  /\ sound storage keys b
  /\ (forall t' k, (t' < t)%nat -> keys !! (cpuI + t' * c)%nat = Some k ->
                   storage_get storage k ≠ "" ->
                   exists i, (i < count)%nat /\ keyArr b !! i = Some k)
  /\ (forall i k, (i < count)%nat -> keyArr b !! i = Some k ->
                  exists cv h, entry storage k cv h).

(** What a worker ends with: its buffers after its last index, or the
    failure of [calcHashVal] on a value of the walk. *)
Definition worker_post (cpuI : nat) (r : result (nat * buffers)) : Prop :=
  match r with
  | Ok (count, b) =>
      exists t, wstate cpuI t count b /\ (length keys <= cpuI + t * c)%nat
  | Err e =>
      exists k, k ∈ keys /\ storage_get storage k ≠ ""
                /\ calcHashVal (storage_get storage k) = Err e
  | Panic p =>
      exists k, k ∈ keys /\ storage_get storage k ≠ ""
                /\ calcHashVal (storage_get storage k) = Panic p
  end.

Lemma wstate_skip (cpuI t count : nat) (b : buffers) (k : string) :
  wstate cpuI t count b ->
  keys !! (cpuI + t * c)%nat = Some k -> storage_get storage k = "" ->
  wstate cpuI (S t) count b.
Proof.
  intros (Hk & Hc & Hh & Hcount & Hcap & Hsound & Hcomplete & Hhashed) Hj Hempty.
  split; [|split; [|split; [|split; [|split; [|split; [|split]]]]]];
    try done; [lia|].
  intros t' k' Ht' Hk' Hne.
  destruct (decide (t' = t)) as [->|Hneq].
  - rewrite Hj in Hk'. injection Hk' as <-. done.
  - apply (Hcomplete t' k'); [lia|done..].
Qed.

Lemma wstate_write (cpuI t count : nat) (b : buffers) (k : string) (cv h : list Z) :
  wstate cpuI t count b ->
  keys !! (cpuI + t * c)%nat = Some k -> entry storage k cv h ->
  (count < operationsPerCpu (length keys) c)%nat ->
  wstate cpuI (S t) (S count)
    {| keyArr := <[count := k]> (keyArr b);
       cVArr := <[count := Some cv]> (cVArr b);
       hashArr := <[count := h]> (hashArr b) |}.
Proof.
  intros (Hk & Hc & Hh & Hcount & Hcap & Hsound & Hcomplete & Hhashed) Hj Hent Hlt.
  split; [|split; [|split; [|split; [|split; [|split; [|split]]]]]];
    cbn [keyArr cVArr hashArr].
  - by rewrite length_insert.
  - by rewrite length_insert.
  - by rewrite length_insert.
  - lia.
  - lia.
  - intros i k' Hi Hne. cbn [keyArr cVArr hashArr] in *.
    destruct (decide (i = count)) as [->|Hneq].
    + rewrite list_lookup_insert_eq in Hi by lia. injection Hi as <-.
      split; [by eapply list_elem_of_lookup_2|].
      exists cv, h. rewrite !list_lookup_insert_eq by lia. done.
    + rewrite list_lookup_insert_ne in Hi by done.
      destruct (Hsound i k' Hi Hne) as (Hin & c' & h' & He & Hc' & Hh').
      split; [done|]. exists c', h'.
      rewrite !list_lookup_insert_ne by done. done.
  - intros t' k' Ht' Hk' Hne.
    destruct (decide (t' = t)) as [->|Hneq].
    + rewrite Hj in Hk'. injection Hk' as <-.
      exists count. split; [lia|]. apply list_lookup_insert_eq. lia.
    + destruct (Hcomplete t' k' ltac:(lia) Hk' Hne) as (i & Hi & Hki).
      exists i. split; [lia|]. rewrite list_lookup_insert_ne by lia. done.
  - intros i k' Hi Hki.
    destruct (decide (i = count)) as [->|Hneq].
    + rewrite list_lookup_insert_eq in Hki by lia. injection Hki as <-.
      by exists cv, h.
    + rewrite list_lookup_insert_ne in Hki by done.
      apply (Hhashed i k'); [lia|done].
Qed.

(** The loop of a worker, given enough iterations, ends, and never with a
    write past its buffers. *)
Lemma worker_loop_spec (cpuI : nat) :
  forall (fuel t count : nat) (b : buffers),
    wstate cpuI t count b ->
    (length keys - (cpuI + t * c) < fuel)%nat ->
    exists r, worker_loop storage keys c fuel (cpuI + t * c) count b = Some r
              /\ worker_post cpuI r.
Proof.
  induction fuel as [|fuel IH]; intros t count b Hst Hfuel; [lia|].
  cbn [worker_loop].
  destruct (decide (cpuI + t * c < length keys)%nat) as [Hj|Hj].
  2:{ exists (Ok (count, b)). split; [done|]. exists t. split; [done|lia]. }
  destruct (lookup_lt_is_Some_2 keys _ Hj) as [k Hk]. rewrite Hk.
  assert (Hnext : (cpuI + t * c + c = cpuI + S t * c)%nat) by lia.
  destruct (decide (storage_get storage k = "")) as [Hempty|Hne].
  { rewrite Hnext. apply IH; [by eapply wstate_skip|lia]. }
  destruct (calcHashVal (storage_get storage k)) as [[cv h]|e|p] eqn:Hcalc.
  - assert (Hlt : (count < operationsPerCpu (length keys) c)%nat).
    { destruct Hst as (_ & _ & _ & Hcount & _).
      apply (count_below_operationsPerCpu _ _ _ (cpuI + t * c)); [done|nia|done]. }
    destruct (decide _) as [_|Hbad].
    2:{ destruct Hst as (Hl1 & Hl2 & Hl3 & _).
        rewrite Hl1, Hl2, Hl3 in Hbad. lia. }
    rewrite Hnext. apply IH; [|lia].
    by apply wstate_write.
  - exists (Err e). split; [done|]. exists k.
    split; [by eapply list_elem_of_lookup_2|done].
  - exists (Panic p). split; [done|]. exists k.
    split; [by eapply list_elem_of_lookup_2|done].
Qed.

Lemma wstate_init (cpuI : nat) :
  wstate cpuI 0 0 (new_buffers (operationsPerCpu (length keys) c)).
Proof.
  unfold new_buffers.
  split; [|split; [|split; [|split; [|split; [|split; [|split]]]]]];
    cbn [keyArr cVArr hashArr].
  - apply length_replicate.
  - apply length_replicate.
  - apply length_replicate.
  - lia.
  - lia.
  - intros i k Hi Hne. cbn [keyArr] in Hi.
    apply lookup_replicate in Hi as [-> _]. done.
  - intros t' k Ht'. lia.
  - intros i k Hi. lia.
Qed.

Lemma worker_spec (cpuI : nat) :
  exists r, worker storage keys c cpuI = Some r /\ worker_post cpuI r.
Proof.
  unfold worker.
  pose proof (worker_loop_spec cpuI (S (length keys)) 0 0 _ (wstate_init cpuI))
    as Hloop.
  rewrite Nat.mul_0_l, Nat.add_0_r in Hloop. apply Hloop. lia.
Qed.

End workers.

Lemma join_all_ok {X} (f : nat -> option (result X)) (P : nat -> X -> Prop)
    (l : list nat) :
  (forall i, i ∈ l -> exists x, f i = Some (Ok x) /\ P i x) ->
  exists xs, join (f <$> l) = Some (Ok xs) /\ Forall2 P l xs.
Proof.
  induction l as [|i l IH]; intros Hall.
  - exists []. split; [done|constructor].
  - destruct (Hall i) as (x & Hfx & HP); [by left|].
    destruct IH as (xs & Hjoin & HPs).
    { intros i' Hi'. apply Hall. by right. }
    exists (x :: xs). cbn [fmap list_fmap join].
    rewrite Hfx. change (list_fmap nat _ f l) with (f <$> l). rewrite Hjoin.
    split; [done|by constructor].
Qed.

Lemma join_outcome {X} (rs : list (option (result X))) (p : panic) :
  Forall (fun r => (exists x, r = Some (Ok x)) \/ r = Some (Panic p)) rs ->
  join rs = Some (Panic p)
  \/ exists xs, join rs = Some (Ok xs)
                /\ Forall2 (fun r x => r = Some (Ok x)) rs xs.
Proof.
  induction 1 as [|r rs Hr _ IH]; [right; exists []; by split|].
  cbn [join]. destruct Hr as [[x ->]| ->].
  - destruct IH as [->|(xs & -> & Hxs)]; [by left|].
    right. exists (x :: xs). split; [done|by constructor].
  - left. by destruct IH as [->|(xs & -> & _)].
Qed.

Lemma join_panic {X} (rs : list (option (result X))) (p : panic) :
  Forall (fun r => (exists x, r = Some (Ok x)) \/ r = Some (Panic p)) rs ->
  Exists (fun r => r = Some (Panic p)) rs ->
  join rs = Some (Panic p).
Proof.
  intros Hall Hex. destruct (join_outcome rs p Hall) as [|(xs & _ & Hxs)]; [done|].
  apply Exists_exists in Hex as (r & Hr & ->).
  apply list_elem_of_lookup in Hr as (i & Hi).
  by destruct (Forall2_lookup_l _ _ _ _ _ Hxs Hi) as (x & _ & ?).
Qed.

Section hashing_stage.
Context `{Helpers}.

Lemma calcHashVal_not_out_of_range (v : string) :
  calcHashVal v ≠ Panic IndexOutOfRange.
Proof.
  unfold calcHashVal.
  destruct (convertStringToBigInt v) as [x|]; cbn [ScalarToArrayBig]; [|done].
  unfold NodeValue8FromBigIntArray. by destruct (decide _).
Qed.

(** C2 (as the code has it). The buffers of [operationsPerCpu] slots are
    never too small: for every number of keys and every number [c >= 1] of
    workers, an index [cpuI + t * c] below the number of keys has [t] below
    [operationsPerCpu], so that even a worker that writes at every index it
    visits stays inside its buffers; and the loop of every worker ends,
    never with an index-out-of-range panic, with at most
    [operationsPerCpu] entries written in buffers of that length. *)
Theorem worker_stays_within_buffers (storage : gmap string string)
    (keys : list string) (c cpuI : nat) :
  (0 < c)%nat ->
  (forall t, (cpuI + t * c < length keys)%nat ->
             (t < operationsPerCpu (length keys) c)%nat)
  /\ exists r,
       worker storage keys c cpuI = Some r
       /\ r ≠ Panic IndexOutOfRange
       /\ forall count b,
            r = Ok (count, b) ->
            (count <= operationsPerCpu (length keys) c)%nat
            /\ length (keyArr b) = operationsPerCpu (length keys) c
            /\ length (cVArr b) = operationsPerCpu (length keys) c
            /\ length (hashArr b) = operationsPerCpu (length keys) c.
Proof.
  intros Hc. split.
  - intros t Ht.
    apply (count_below_operationsPerCpu _ _ _ (cpuI + t * c)); [done|lia|done].
  - destruct (worker_spec storage keys c Hc cpuI) as (r & Hr & Hpost).
    exists r. split; [done|]. split.
    + destruct r as [[count b]|e|p]; [done..|].
      destruct Hpost as (k & _ & _ & Hcalc). intros [= ->].
      by apply calcHashVal_not_out_of_range in Hcalc.
    + intros count b ->. destruct Hpost as (t & Hst & _).
      destruct Hst as (? & ? & ? & ? & ? & _). done.
Qed.

(** Under [values_ok] a worker ends with its buffers. *)
Lemma worker_ok (storage : gmap string string) (keys : list string) (c cpuI : nat) :
  (0 < c)%nat -> values_ok storage ->
  exists out, worker storage keys c cpuI = Some (Ok out)
              /\ exists t, wstate storage keys c cpuI t out.1 out.2
                           /\ (length keys <= cpuI + t * c)%nat.
Proof.
  intros Hc Hok.
  destruct (worker_spec storage keys c Hc cpuI) as (r & Hr & Hpost).
  destruct r as [[count b]|e|p].
  - by exists (count, b).
  - destruct Hpost as (k & _ & Hne & Hcalc).
    destruct (values_ok_entry storage k Hok Hne) as (cv & h & _ & Hcalc').
    congruence.
  - destruct Hpost as (k & _ & Hne & Hcalc).
    destruct (values_ok_entry storage k Hok Hne) as (cv & h & _ & Hcalc').
    congruence.
Qed.

(** The workers together write the slots of the walk whose value is not
    empty, when the empty string is not one of them. *)
Lemma written_all (storage : gmap string string) (keys : list string) (c : nat)
    (outs : list (nat * buffers)) :
  (0 < c)%nat ->
  storage_get storage "" = "" ->
  Forall2 (fun cpuI out =>
             exists t, wstate storage keys c cpuI t out.1 out.2
                       /\ (length keys <= cpuI + t * c)%nat)
          (seq 0 c) outs ->
  ⋃ (written <$> (snd <$> outs)) = nonempty_slots storage keys.
Proof.
  intros Hc Hempty Houts. apply set_eq. intros k.
  rewrite elem_of_union_list. unfold nonempty_slots.
  rewrite elem_of_list_to_set, list_elem_of_filter. split.
  - intros (X & HX & Hk).
    apply list_elem_of_fmap in HX as (b & -> & Hb).
    apply list_elem_of_fmap in Hb as (out & -> & Hout).
    apply list_elem_of_lookup in Hout as (i & Hi).
    destruct (Forall2_lookup_r _ _ _ _ _ Houts Hi) as (cpuI & _ & t & Hst & _).
    destruct Hst as (_ & _ & _ & _ & _ & Hsound & _).
    unfold written in Hk.
    apply elem_of_list_to_set, list_elem_of_filter in Hk as [Hne Hk].
    apply list_elem_of_lookup in Hk as (j & Hj).
    destruct (Hsound j k Hj Hne) as (Hin & cv & h & [Hv _] & _). done.
  - intros [Hne Hin].
    apply list_elem_of_lookup in Hin as (j & Hj).
    pose proof (lookup_lt_Some _ _ _ Hj) as Hjn.
    pose proof (Nat.div_mod_eq j c) as Hdm.
    pose proof (Nat.mod_upper_bound j c ltac:(lia)) as Hmod.
    assert (Hseq : seq 0 c !! (j mod c)%nat = Some (j mod c)%nat).
    { by rewrite lookup_seq_lt. }
    destruct (Forall2_lookup_l _ _ _ _ _ Houts Hseq) as (out & Hout & t & Hst & Hend).
    destruct Hst as (_ & _ & _ & _ & _ & _ & Hcomplete & _).
    destruct (Hcomplete (j / c)%nat k) as (i & _ & Hi).
    + nia.
    + replace (j mod c + j / c * c)%nat with j by lia. done.
    + done.
    + exists (written out.2). split.
      * apply list_elem_of_fmap. exists out.2. split; [done|].
        apply list_elem_of_fmap. exists out. split; [done|].
        by eapply list_elem_of_lookup_2.
      * unfold written. apply elem_of_list_to_set, list_elem_of_filter.
        split; [|by eapply list_elem_of_lookup_2].
        intros ->. done.
Qed.

Lemma expected_upto (storage : gmap string string) (keys : list string) :
  (forall k, is_Some (storage !! k) -> k ∈ keys) ->
  maps_upto storage (nonempty_slots storage keys)
            (expected_chm storage, expected_vhm storage).
Proof.
  intros Hcover k. split; [done|]. intros Hk. cbn [fst snd].
  unfold expected_chm, expected_vhm. rewrite !lookup_omap.
  destruct (storage !! k) as [v|] eqn:Hv; [|done]. cbn.
  destruct (decide (v = "")) as [|Hne]; [done|]. exfalso. apply Hk.
  unfold nonempty_slots. apply elem_of_list_to_set, list_elem_of_filter.
  split; [|by apply Hcover]. unfold storage_get. by rewrite Hv.
Qed.

Lemma sequential_maps_expected (storage : gmap string string) (keys : list string) :
  (forall k, is_Some (storage !! k) -> k ∈ keys) ->
  values_ok storage ->
  sequential_maps storage keys = Ok (expected_chm storage, expected_vhm storage).
Proof.
  intros Hcover Hok. unfold sequential_maps.
  destruct (sequential_loop_spec storage keys Hok ∅ (∅, ∅)) as (m & -> & Hm);
    [apply maps_upto_empty|].
  f_equal. eapply maps_upto_unique; [done|].
  rewrite (right_id_L ∅ (∪)). by apply expected_upto.
Qed.

Lemma parallel_maps_expected (storage : gmap string string) (keys : list string)
    (c : nat) :
  (0 < c)%nat ->
  (forall k, is_Some (storage !! k) -> k ∈ keys) ->
  values_ok storage ->
  storage_get storage "" = "" ->
  parallel_maps c storage keys
  = Some (Ok (expected_chm storage, expected_vhm storage)).
Proof.
  intros Hc Hcover Hok Hempty. unfold parallel_maps.
  destruct (decide (c = 0%nat)) as [|_]; [lia|].
  destruct (join_all_ok (worker storage keys c)
              (fun cpuI out =>
                 exists t, wstate storage keys c cpuI t out.1 out.2
                           /\ (length keys <= cpuI + t * c)%nat)
              (seq 0 c)) as (outs & -> & Houts).
  { intros cpuI _. by apply worker_ok. }
  destruct (merge_all_spec storage keys (snd <$> outs)) with (W := (∅ : gset string))
                                                            (m := ((∅, ∅) : maps))
    as (m & -> & Hm).
  - apply Forall_fmap, Forall_forall. intros out Hout.
    apply list_elem_of_lookup in Hout as (i & Hi).
    destruct (Forall2_lookup_r _ _ _ _ _ Houts Hi) as (cpuI & _ & t & Hst & _).
    by destruct Hst as (_ & _ & _ & _ & _ & Hsound & _).
  - apply maps_upto_empty.
  - do 2 f_equal. eapply maps_upto_unique; [done|].
    rewrite (right_id_L ∅ (∪)), (written_all storage keys c outs) by done.
    by apply expected_upto.
Qed.

(** [calcHashVal] gives a value and its hash, or panics on the nil scalar
    of a string that does not parse. *)
Lemma calcHashVal_outcomes (v : string) :
  calcHashVal v = Panic NilDereference
  \/ exists cv h, calcHashVal v = Ok (cv, h).
Proof.
  unfold calcHashVal.
  destruct (convertStringToBigInt v) as [x|]; cbn [ScalarToArrayBig]; [|by left].
  unfold NodeValue8FromBigIntArray.
  destruct (decide _) as [_|Hn]; [right; eauto|by destruct Hn].
Qed.

Lemma not_values_ok (storage : gmap string string) :
  ¬ values_ok storage ->
  exists k, storage_get storage k ≠ ""
            /\ calcHashVal (storage_get storage k) = Panic NilDereference.
Proof.
  intros Hno. apply map_not_Forall in Hno as (k & v & Hk & Hv); [|apply _].
  exists k. unfold storage_get. rewrite Hk. cbn.
  split; [intros ->; apply Hv; by left|].
  destruct (calcHashVal_outcomes v) as [|(cv & h & Hcalc)]; [done|].
  destruct Hv. right. by rewrite Hcalc.
Qed.

Lemma sequential_loop_fails (storage : gmap string string) (k : string)
    (ks : list string) :
  k ∈ ks -> storage_get storage k ≠ "" ->
  calcHashVal (storage_get storage k) = Panic NilDereference ->
  forall m, sequential_loop storage ks m = Panic NilDereference.
Proof.
  intros Hin Hne Hcalc. induction ks as [|k0 ks IH]; intros m;
    [by apply elem_of_nil in Hin|].
  cbn [sequential_loop].
  destruct (decide (storage_get storage k0 = "")) as [He|Hne0].
  - apply IH. apply elem_of_cons in Hin as [->|?]; done.
  - destruct (calcHashVal_outcomes (storage_get storage k0))
      as [->|(cv & h & Hcalc0)]; [done|].
    rewrite Hcalc0. apply IH.
    apply elem_of_cons in Hin as [->|?]; [congruence|done].
Qed.

Lemma parallel_maps_fails (storage : gmap string string) (k : string)
    (keys : list string) (c : nat) :
  (0 < c)%nat ->
  k ∈ keys -> storage_get storage k ≠ "" ->
  calcHashVal (storage_get storage k) = Panic NilDereference ->
  parallel_maps c storage keys = Some (Panic NilDereference).
Proof.
  intros Hc Hin Hne Hcalc. unfold parallel_maps.
  destruct (decide (c = 0%nat)) as [|_]; [lia|].
  rewrite (join_panic _ NilDereference); [done| |].
  - apply Forall_fmap, Forall_forall. intros cpuI _. unfold compose.
    destruct (worker_spec storage keys c Hc cpuI) as (r & -> & Hpost).
    destruct r as [out|e|p]; [left; by exists out| |].
    + destruct Hpost as (k' & _ & _ & Hk').
      destruct (calcHashVal_outcomes (storage_get storage k'))
        as [|(cv & h & ?)]; congruence.
    + destruct Hpost as (k' & _ & _ & Hk'). right.
      destruct (calcHashVal_outcomes (storage_get storage k'))
        as [|(cv & h & ?)]; congruence.
  - apply list_elem_of_lookup in Hin as (j & Hj).
    pose proof (lookup_lt_Some _ _ _ Hj) as Hjn.
    pose proof (Nat.div_mod_eq j c) as Hdm.
    pose proof (Nat.mod_upper_bound j c ltac:(lia)) as Hmod.
    apply Exists_fmap, Exists_exists. exists (j mod c)%nat.
    split; [apply elem_of_seq; lia|]. unfold compose.
    destruct (worker_spec storage keys c Hc (j mod c)%nat) as (r & -> & Hpost).
    destruct r as [[count b]|e|p].
    + exfalso. destruct Hpost as (t & Hst & Hend).
      destruct Hst as (_ & _ & _ & _ & _ & _ & Hcomplete & Hhashed).
      destruct (Hcomplete (j / c)%nat k) as (i & Hi & Hki); [nia| |done|].
      { replace (j mod c + j / c * c)%nat with j by lia. done. }
      destruct (Hhashed i k Hi Hki) as (cv & h & _ & Hok). congruence.
    + destruct Hpost as (k' & _ & _ & Hk').
      destruct (calcHashVal_outcomes (storage_get storage k'))
        as [|(cv & h & ?)]; congruence.
    + destruct Hpost as (k' & _ & _ & Hk').
      destruct (calcHashVal_outcomes (storage_get storage k'))
        as [|(cv & h & ?)]; congruence.
Qed.


End hashing_stage.

(** * A sample instance, and the properties on concrete runs

    The helpers and the tree engine enter the theorems above through their
    signatures only. To run the model on concrete inputs they are given
    simple definitions here: a positional rendering of limbs in hexadecimal,
    sums in place of the hash, and an engine that only moves the root. *)

Module Sample.

Fixpoint str_code (acc : Z) (s : string) : Z :=
  match s with
  | EmptyString => acc
  | String ch s' => str_code ((acc * 256 + Z.of_nat (nat_of_ascii ch)) mod 2 ^ 64) s'
  end.

Definition parse_hex (s : string) : result Z :=
  match Go.SetString (Go.TrimPrefix s "0x") 16 with
  | Some x => Ok x
  | None => Err (ErrOther "invalid syntax")
  end.

Definition helpers : Helpers := {|
  ConvertArrayToHex arr := "0x" +:+ Go.EncodeToString (be_bytes 32 (ArrayToScalar arr));
  ConvertHexToUint64 := parse_hex;
  ConvertUint64ToHex n := "0x" +:+ Go.EncodeToString (be_bytes 8 n);
  Hash input cap := [foldr Z.add 0 input; foldr Z.add 0 cap; Z.of_nat (length input); 0];
  BranchCapacity := [0; 0; 0; 0];
  KeyEthAddrBalance a := mkNodeKey (str_code 0 a) KEY_BALANCE 0 0;
  KeyEthAddrNonce a := mkNodeKey (str_code 0 a) KEY_NONCE 0 0;
  KeyContractCode a := mkNodeKey (str_code 0 a) SC_CODE 0 0;
  KeyContractLength a := mkNodeKey (str_code 0 a) SC_LENGTH 0 0;
  KeyContractStorage a k := Ok (mkNodeKey (str_code 0 a) SC_STORAGE (str_code 0 k) 0);
  EncodeKeySource kind addr hash := kind :: addr ++ hash;
  HashContractBytecodeBigInt bc := str_code 0 bc;
  HashContractBytecodeBytes bc := be_bytes 8 (str_code 0 bc);
  StrValToBigInt := convertStringToBigInt;
  AddressString addr := "0x" +:+ Go.EncodeToString addr;
  HexToAddress a := be_bytes 20 (str_code 0 a);
  BigToHash x := be_bytes 32 x;
|}.

Definition engine : Engine := {|
  InsertKA m key value := ((SetLastRoot m (LastRoot m + 1)).1, Ok (LastRoot m + 1));
  InsertBatch m keys values :=
    ((SetLastRoot m (LastRoot m + Z.of_nat (length keys))).1, Ok tt);
  InsertStorage m ethAddr storage chm vhm := (m, Ok (LastRoot m));
|}.

(** An SMT over the empty store. *)
Definition fresh : SMT := {| Db := NewMemDb; calls := []; polls := 0 |}.

Definition addr1 : list Z := replicate 19 0 ++ [1].
Definition addr2 : list Z := replicate 19 0 ++ [2].

(** Two accounts with a balance, and a context that is done at the second
    poll. *)
Definition two_accounts : list (list Z * option Account) :=
  [(addr1, Some (mkAccount 1 100)); (addr2, Some (mkAccount 2 200))].

Definition done_at_second_poll : context := fun i => bool_decide (i = 1%nat).

Definition never_done : context := fun _ => false.

(** A storage map of 101 slots, the empty string among them, each with the
    value "1", and the order in which the map lists them. *)
Definition storage101 : gmap string string :=
  list_to_map ((fun k => (k, "1")) <$> ("" :: ((fun i => "k" +:+ pretty i) <$> seq 1 100))).

Definition keys101 : list string := (map_to_list storage101).*1.

(** A small storage map, with an empty value, and its keys. *)
Definition storage3 : gmap string string :=
  {[ "a" := "0x2a"; "b" := ""; "c" := "7" ]}.

Definition keys3 : list string := (map_to_list storage3).*1.

End Sample.

(** The buffers are never too small: no index a worker visits has a rank at
    or past [operationsPerCpu], for any number of keys above the threshold
    of the parallel path and any number of workers. *)
Lemma operationsPerCpu_never_too_small :
  ~ exists n c cpuI t : nat,
      (100 < n /\ 0 < c /\ cpuI < c /\ cpuI + t * c < n
       /\ operationsPerCpu n c <= t)%nat.
Proof.
  intros (n & c & cpuI & t & Hn & Hc & HcpuI & Ht & Hops).
  pose proof (count_below_operationsPerCpu n c t (cpuI + t * c) Hc
                ltac:(lia) Ht).
  lia.
Qed.

Section sample_runs.
Local Existing Instance Sample.helpers.
Local Existing Instance Sample.engine.

(** On the empty store the lookup of a node is not an error. *)
Lemma Get_absent_not_ErrNotFound :
  db.Db NewMemDb !! ConvertArrayToHex (key_slice zeroNodeKey) = None
  /\ Get NewMemDb zeroNodeKey = Ok zeroNodeValue12
  /\ Get NewMemDb zeroNodeKey ≠ Err ErrNotFound.
Proof. split; [done|]. split; [by vm_compute|]. by vm_compute. Qed.

Lemma Get_Insert_sample :
  Get (Insert NewMemDb (mkNodeKey 1 2 3 4) [1; 2; 3; 4; 5; 6; 7; 8; 9; 10; 11; 12]).1
      (mkNodeKey 1 2 3 4)
  = Ok [1; 2; 3; 4; 5; 6; 7; 8; 9; 10; 11; 12].
Proof.
  apply (proj2 (proj2 (Get_absent_zero_present_stored NewMemDb (mkNodeKey 1 2 3 4)))).
  - reflexivity.
  - repeat constructor.
Defined.

Lemma GetCode_AddCode_sample :
  GetCode (AddCode NewMemDb [96; 128; 96; 64]).1
          (HashContractBytecodeBytes (Go.EncodeToString [96; 128; 96; 64]))
  = Ok [96; 128; 96; 64].
Proof. exact (proj1 (GetCode_AddCode NewMemDb [96; 128; 96; 64])). Defined.


Lemma calcHashVal_sample :
  calcHashVal "0x2a"
  = Ok (lanes32 42, Hash (ToUintArray (lanes32 42)) BranchCapacity)
  /\ length (lanes32 42) = 8%nat
  /\ Forall (fun l => 0 <= l < 2 ^ 32) (lanes32 42)
  /\ of_lanes32 (lanes32 42) = 42.
Proof. apply (calcHashVal_branch_capacity "0x2a" 42); [reflexivity|lia]. Defined.

Lemma worker_stays_within_buffers_sample :
  (forall t, (1 + t * 4 < length Sample.keys101)%nat ->
             (t < operationsPerCpu (length Sample.keys101) 4)%nat)
  /\ exists r,
       worker Sample.storage101 Sample.keys101 4 1 = Some r
       /\ r ≠ Panic IndexOutOfRange
       /\ forall count b,
            r = Ok (count, b) ->
            (count <= operationsPerCpu (length Sample.keys101) 4)%nat
            /\ length (keyArr b) = operationsPerCpu (length Sample.keys101) 4
            /\ length (cVArr b) = operationsPerCpu (length Sample.keys101) 4
            /\ length (hashArr b) = operationsPerCpu (length Sample.keys101) 4.
Proof. apply worker_stays_within_buffers. lia. Defined.





(** Cancelled at the second poll, after the first of two accounts: the call
    returns the context error, and the two key sources written for the
    first account are in the store, which had none. *)
Lemma cancelled_SetStorage_leaves_key_sources :
  let run := SetStorage Sample.done_at_second_poll "test"
               Sample.two_accounts [] [] Sample.fresh in
  run.2 = Err (ErrContextDone "test")
  /\ size (DbKeySource (Db Sample.fresh)) = 0%nat
  /\ size (DbKeySource (Db run.1)) = 2%nat
  /\ Db run.1 ≠ Db Sample.fresh.
Proof.
  intros run. split; [by vm_compute|]. split; [by vm_compute|].
  split; [by vm_compute|].
  intros Heq. apply (f_equal (fun m => size (DbKeySource m))) in Heq.
  vm_compute in Heq. discriminate Heq.
Qed.

Lemma SetStorage_context_done_sample :
  let run := SetStorage Sample.done_at_second_poll "test"
               Sample.two_accounts [] [] Sample.fresh in
  run.2 = Err (ErrContextDone "test")
  /\ existsb is_InsertBatch (new_calls Sample.fresh run.1) = false
  /\ same_tree (Db Sample.fresh) (Db run.1)
  /\ DbKeySource (Db run.1)
     = replay (new_calls Sample.fresh run.1) (DbKeySource (Db Sample.fresh)).
Proof.
  intros run.
  assert (E : run = (run.1, run.2)) by (by destruct run).
  assert (Hdone : exists i, (polls Sample.fresh <= i < polls run.1)%nat
                            /\ Sample.done_at_second_poll i = true).
  { exists 1%nat. split; [|reflexivity].
    assert (Hp : polls run.1 = 2%nat) by (vm_compute; reflexivity).
    rewrite Hp. cbn. lia. }
  exact (SetStorage_context_done Sample.done_at_second_poll "test"
           Sample.two_accounts [] [] Sample.fresh run.1 run.2 E Hdone).
Defined.

Lemma SetStorage_error_keeps_tree_sample :
  let run := SetStorage Sample.done_at_second_poll "test"
               Sample.two_accounts [] [] Sample.fresh in
  LastRoot (Db run.1) = LastRoot (Db Sample.fresh)
  /\ db.Db (Db run.1) = db.Db (Db Sample.fresh)
  /\ same_tree (Db Sample.fresh) (Db run.1).
Proof.
  intros run.
  assert (E : run = (run.1, Err (ErrContextDone "test")))
    by (vm_compute; reflexivity).
  assert (Hno : existsb is_InsertBatch (new_calls Sample.fresh run.1) = false)
    by (vm_compute; reflexivity).
  exact (SetStorage_error_keeps_tree Sample.done_at_second_poll "test"
           Sample.two_accounts [] [] Sample.fresh run.1 _ E Hno).
Defined.

End sample_runs.

(** * Further properties of the store *)

Section store_lookups.
Context `{Helpers}.

(** X1. The key-source map: a lookup fails with [ErrNotFound] exactly when
    the rendered key is absent; it finds what [InsertKeySource] stored and
    nothing after [DeleteKeySource]; and a key with another rendering is
    not affected by either. *)
Theorem GetKeySource_insert_delete (m : MemDb) (k k' : NodeKey) (v : list Z) :
  (GetKeySource m k = Err ErrNotFound
   <-> DbKeySource m !! ConvertArrayToHex (key_slice k) = None)
  /\ GetKeySource (db.InsertKeySource m k v).1 k = Ok v
  /\ GetKeySource (db.DeleteKeySource m k).1 k = Err ErrNotFound
  /\ GetKeySource (db.DeleteKeySource (db.InsertKeySource m k v).1 k).1 k = Err ErrNotFound
  /\ (ConvertArrayToHex (key_slice k') ≠ ConvertArrayToHex (key_slice k) ->
      GetKeySource (db.InsertKeySource m k v).1 k' = GetKeySource m k'
      /\ GetKeySource (db.DeleteKeySource m k).1 k' = GetKeySource m k').
Proof.
  unfold GetKeySource, db.InsertKeySource, db.DeleteKeySource. cbn [fst DbKeySource].
  split; [|split; [|split; [|split]]].
  - by destruct (DbKeySource m !! _).
  - by rewrite lookup_insert_eq.
  - by rewrite lookup_delete_eq.
  - by rewrite lookup_delete_eq.
  - intros Hne. by rewrite lookup_insert_ne, lookup_delete_ne.
Qed.


(** X3. Account values: a key that is absent reads as the all-zero 8-limb
    value, with no error; a value of eight limbs that [InsertAccountValue]
    stored is read back, when the rendering of each limb parses to the limb;
    and storing an account value changes no node: [Get] answers as
    before, on every key. *)
Theorem GetAccountValue_InsertAccountValue (m : MemDb) (k k' : NodeKey)
    (value : list Z) :
  (DbAccVal m !! ConvertArrayToHex (key_slice k) = None ->
   GetAccountValue m k = Ok zeroNodeValue8)
  /\ (length value = 8%nat ->
      Forall (fun v => ConvertHexToUint64 (ConvertUint64ToHex v) = Ok v) value ->
      GetAccountValue (InsertAccountValue m k value).1 k = Ok value)
  /\ Get (InsertAccountValue m k value).1 k' = Get m k'.
Proof.
  split; [|split].
  - intros Hk. unfold GetAccountValue. by rewrite Hk.
  - intros Hlen Hround. unfold GetAccountValue, InsertAccountValue.
    cbn [fst DbAccVal]. rewrite lookup_insert_eq. cbn [default].
    assert (Hparse : Forall2 (fun s v => ConvertHexToUint64 s = Ok v)
                             (ConvertUint64ToHex <$> value) value)
      by apply Forall2_fmap_l, Forall_Forall2_diag, Hround.
    rewrite (fill_values_parsed 8 _ value Hparse)
      by (rewrite ?length_fmap; cbn; lia).
    rewrite length_fmap, Hlen. cbn [take drop zeroNodeValue8 replicate Nat.add].
    by rewrite app_nil_r.
  - done.
Qed.

(** The loop of [Get] over a first part of the strings that all parse. *)
Lemma fill_values_app (n : nat) (good : list string) (vals : list Z)
    (rest : list string) :
  Forall2 (fun s v => ConvertHexToUint64 s = Ok v) good vals ->
  forall (i : nat) (values : list Z),
    length values = n -> (i + length good <= n)%nat ->
    fill_values n i (good ++ rest) values
    = fill_values n (i + length good) rest
        (take i values ++ vals ++ drop (i + length good) values).
Proof.
  induction 1 as [|s v good vals Hs _ IH]; intros i values Hlen Hi.
  - cbn. by rewrite Nat.add_0_r, take_drop.
  - cbn [fill_values length app] in *. rewrite Hs.
    destruct (decide (i < n)%nat) as [Hlt|]; [|lia].
    rewrite IH by (rewrite ?length_insert; lia).
    rewrite (take_S_r _ i v) by (apply list_lookup_insert_eq; lia).
    rewrite take_insert_ge by lia.
    rewrite drop_insert_lt by lia.
    rewrite <- app_assoc. cbn. by rewrite !Nat.add_succ_r.
Qed.

(** X4. A stored node record that has not twelve limbs, or a limb that does
    not parse. Fewer than twelve strings give the limbs they parse to
    followed by zeros; a string that does not parse, at any of the first
    thirteen positions, ends [Get] with the error of the parse; a
    thirteenth string that parses is written past the array: [Get] panics. *)
Theorem Get_malformed_record (m : MemDb) (key : NodeKey)
    (good : list string) (vals : list Z) (rest : list string) :
  Forall2 (fun s v => ConvertHexToUint64 s = Ok v) good vals ->
  (length good <= 12)%nat ->
  db.Db m !! ConvertArrayToHex (key_slice key) = Some (good ++ rest) ->
  (rest = [] -> Get m key = Ok (vals ++ replicate (12 - length good) 0))
  /\ (forall s rest' e, rest = s :: rest' -> ConvertHexToUint64 s = Err e ->
                        Get m key = Err e)
  /\ (forall s rest' x, rest = s :: rest' -> length good = 12%nat ->
                        ConvertHexToUint64 s = Ok x ->
                        Get m key = Panic IndexOutOfRange).
Proof.
  intros Hgood Hlen Hk. unfold Get. rewrite Hk. cbn [default].
  rewrite (fill_values_app 12 good vals rest Hgood) by (cbn; lia).
  cbn [Nat.add take app].
  assert (Hdrop : drop (length good) zeroNodeValue12
                  = replicate (12 - length good) 0).
  { unfold zeroNodeValue12. by rewrite drop_replicate. }
  rewrite Hdrop. split; [|split].
  - by intros ->.
  - intros s rest' e -> Hs. cbn [fill_values]. by rewrite Hs.
  - intros s rest' x -> H12 Hs. cbn [fill_values]. rewrite Hs, H12.
    by destruct (decide (12 < 12)%nat); [lia|].
Qed.

(** X5. Deleting a node: after [DeleteByNodeKey], [Get] on the key gives the
    all-zero record again; [Delete] on the rendered key is the same
    operation; a key with another rendering is not affected. The new store
    is empty, a store is not empty after an [Insert], and every key of an
    empty store reads as the zero record. *)
Theorem DeleteByNodeKey_Get (m : MemDb) (k k' : NodeKey) (value : list Z) :
  Get (DeleteByNodeKey m k).1 k = Ok zeroNodeValue12
  /\ Get (DeleteByNodeKey (Insert m k value).1 k).1 k = Ok zeroNodeValue12
  /\ Delete m (ConvertArrayToHex (key_slice k)) = DeleteByNodeKey m k
  /\ (ConvertArrayToHex (key_slice k') ≠ ConvertArrayToHex (key_slice k) ->
      Get (DeleteByNodeKey m k).1 k' = Get m k'
      /\ Get (Insert m k value).1 k' = Get m k')
  /\ IsEmpty NewMemDb = true
  /\ IsEmpty (Insert m k value).1 = false
  /\ (IsEmpty m = true -> Get m k = Ok zeroNodeValue12).
Proof.
  unfold DeleteByNodeKey, Delete, Insert, Get, IsEmpty. cbn [fst db.Db].
  split; [|split; [|split; [|split; [|split; [|split]]]]].
  - by rewrite lookup_delete_eq.
  - by rewrite lookup_delete_eq.
  - done.
  - intros Hne. by rewrite lookup_delete_ne, lookup_insert_ne.
  - done.
  - apply bool_decide_eq_false. intros Hsize.
    apply map_size_empty_iff in Hsize. by apply insert_non_empty in Hsize.
  - intros Hempty. apply bool_decide_eq_true, map_size_empty_iff in Hempty.
    by rewrite Hempty, lookup_empty.
Qed.

(** X6. The batch operations of the in-memory store do nothing: a write made
    after [OpenBatch] is still in the store after [RollbackBatch], and
    [CommitBatch] returns no error and the store it was given. *)
Theorem RollbackBatch_keeps_writes (m : MemDb) (k : NodeKey) (ks : list Z)
    (value : list Z) :
  GetKeySource (RollbackBatch (db.InsertKeySource (OpenBatch m) k ks).1) k = Ok ks
  /\ db.Db (RollbackBatch (Insert (OpenBatch m) k value).1)
     !! ConvertArrayToHex (key_slice k) = Some (ConvertUint64ToHex <$> value)
  /\ RollbackBatch (Insert (OpenBatch m) k value).1 = (Insert m k value).1
  /\ CommitBatch m = (m, None).
Proof.
  unfold RollbackBatch, OpenBatch, CommitBatch, GetKeySource, db.InsertKeySource, Insert.
  cbn [fst DbKeySource db.Db]. by rewrite !lookup_insert_eq.
Qed.

(** X7. The code map: [GetCode] fails with [ErrNotFound] exactly when no
    code is stored under the rendered hash; a hash shorter than 32 bytes
    finds the same code with a zero byte in front; adding a code again
    changes nothing, and adding another code, stored under another key,
    leaves the first one in place. *)
Theorem GetCode_missing_padded (m : MemDb) (h c1 c2 : list Z) :
  (GetCode m h = Err ErrNotFound
   <-> DbCode m !! ("0x" +:+ Go.EncodeToString
                               (ResizeHashTo32BytesByPrefixingWithZeroes h)) = None)
  /\ ((length h < 32)%nat -> GetCode m (0 :: h) = GetCode m h)
  /\ (AddCode (AddCode m c1).1 c1).1 = (AddCode m c1).1
  /\ (HashContractBytecode (Go.EncodeToString c1)
      ≠ HashContractBytecode (Go.EncodeToString c2) ->
      GetCode (AddCode (AddCode m c1).1 c2).1
              (HashContractBytecodeBytes (Go.EncodeToString c1)) = Ok c1).
Proof.
  split; [|split; [|split]].
  - unfold GetCode. by destruct (DbCode m !! _).
  - intros Hlen. unfold GetCode. do 3 f_equal.
    unfold ResizeHashTo32BytesByPrefixingWithZeroes. cbn [length].
    replace (32 - length h)%nat with (S (32 - S (length h))) by lia.
    rewrite replicate_S_end, <- app_assoc. done.
  - unfold AddCode. cbn [fst DbCode db.Db DbAccVal DbKeySource DbHashKey LastRoot Depth].
    by rewrite insert_insert_eq.
  - intros Hne. unfold GetCode, AddCode. cbn [fst DbCode].
    rewrite lookup_insert_ne by done. unfold HashContractBytecode.
    by rewrite lookup_insert_eq.
Qed.

End store_lookups.

(** * Further properties of the entity storage *)

(** ** Parsing values and bytecode *)

Lemma digit_val_hexdigit (n : Z) :
  0 <= n < 16 ->
  Go.digit_val (Go.hexdigit n) = Some n
  /\ Ascii.eqb (Go.hexdigit n) "-" = false
  /\ Ascii.eqb (Go.hexdigit n) "+" = false.
Proof.
  intros Hn.
  rewrite <- (Z2Nat.id n) by lia.
  assert (Hm : (Z.to_nat n < 16)%nat) by lia.
  revert Hm. generalize (Z.to_nat n) as m. clear. intros m Hm.
  do 16 (destruct m as [|m]; [by vm_compute|]). lia.
Qed.

Lemma parse_digits_EncodeToString (bs : list Z) :
  Forall (fun b => 0 <= b < 256) bs ->
  forall acc,
    Go.parse_digits 16 acc (Go.EncodeToString bs)
    = Some (fold_left (fun a b => a * 256 + b) bs acc).
Proof.
  induction 1 as [|b bs Hb _ IH]; intros acc; [done|].
  cbn [Go.EncodeToString Go.parse_digits fold_left].
  assert (Hhi : 0 <= (b / 16) mod 16 < 16) by (apply Z.mod_pos_bound; lia).
  assert (Hlo : 0 <= b mod 16 < 16) by (apply Z.mod_pos_bound; lia).
  destruct (digit_val_hexdigit _ Hhi) as (-> & _ & _).
  destruct (digit_val_hexdigit _ Hlo) as (-> & _ & _).
  destruct (Z.ltb_spec ((b / 16) mod 16) 16) as [_|]; [|lia].
  destruct (Z.ltb_spec (b mod 16) 16) as [_|]; [|lia].
  rewrite IH. do 2 f_equal.
  rewrite (Z.mod_small (b / 16) 16)
    by (split; [apply Z.div_pos; lia|apply Z.div_lt_upper_bound; lia]).
  pose proof (Z.div_mod b 16). lia.
Qed.

(** X8. Values in the form the stage gives them to [SetStorage], "0x"
    followed by the hexadecimal digits of a byte string: for a byte string
    that is not empty, [convertStringToBigInt] gives the big-endian value of
    the bytes. The empty string and the bare prefix "0x" have no value:
    the result is nil. *)
Theorem convertStringToBigInt_hex_bytes (bs : list Z) :
  bs ≠ [] ->
  Forall (fun b => 0 <= b < 256) bs ->
  convertStringToBigInt ("0x" +:+ Go.EncodeToString bs) = Some (Go.SetBytes bs)
  /\ convertStringToBigInt "" = None
  /\ convertStringToBigInt "0x" = None.
Proof.
  intros Hne Hbs. split; [|done].
  destruct bs as [|b bs]; [done|].
  pose proof (parse_digits_EncodeToString (b :: bs) Hbs 0) as Hparse.
  unfold convertStringToBigInt, Go.SetBytes.
  change (Go.HasPrefix ("0x" +:+ Go.EncodeToString (b :: bs)) "0x") with true.
  change (Go.TrimPrefix ("0x" +:+ Go.EncodeToString (b :: bs)) "0x")
    with (Go.EncodeToString (b :: bs)).
  cbv iota. rewrite <- Hparse.
  cbn [Go.EncodeToString]. unfold Go.SetString.
  assert (Hhi : 0 <= (b / 16) mod 16 < 16) by (apply Z.mod_pos_bound; lia).
  destruct (digit_val_hexdigit _ Hhi) as (_ & -> & ->). done.
Qed.

Section bytecode.
Context `{Helpers}.

(** X9. [convertBytecodeToBigInt] never fails. The empty string gives the
    scalar 0 and the length 0; any other string gives its bytecode hash and,
    as length, the number of bytes of its hexadecimal digits after the
    prefix "0x", a last odd digit counted as a byte. *)
Theorem convertBytecodeToBigInt_length (bytecode : string) :
  convertBytecodeToBigInt "" = Ok (0, 0%nat)
  /\ (bytecode ≠ "" ->
      convertBytecodeToBigInt bytecode
      = Ok (HashContractBytecodeBigInt bytecode,
            ((String.length (Go.TrimPrefix bytecode "0x") + 1) / 2)%nat)).
Proof.
  split; [done|]. intros Hne. unfold convertBytecodeToBigInt. cbv zeta.
  destruct (decide (String.length bytecode = 0%nat)) as [Hlen|_].
  { by destruct bytecode. }
  do 2 f_equal.
  remember (String.length (Go.TrimPrefix bytecode "0x")) as n eqn:Hn.
  pose proof (Nat.div_mod_eq n 2). pose proof (Nat.div_mod_eq (S n) 2).
  pose proof (Nat.div_mod_eq (n + 1) 2).
  pose proof (Nat.mod_upper_bound n 2 ltac:(lia)).
  pose proof (Nat.mod_upper_bound (S n) 2 ltac:(lia)).
  pose proof (Nat.mod_upper_bound (n + 1) 2 ltac:(lia)).
  destruct (decide (n mod 2 ≠ 0)%nat) as [Hodd|Heven].
  - change (String.length ("0" +:+ Go.TrimPrefix bytecode "0x"))
      with (S (String.length (Go.TrimPrefix bytecode "0x"))).
    rewrite <- Hn. lia.
  - rewrite <- Hn. lia.
Qed.

End bytecode.

(** ** [SetStorage]: how much it batches and how often it polls *)

Section set_storage_tally.
Context `{Helpers} `{Engine}.
Variable ctx : context.
Variable logPrefix : string.

(** A step that polls the context at most [p] times, and exactly [p] times
    when it succeeds, in which case it has added [n] keys and [n] values to
    the batch. *)
Definition tally (p n : nat) (b : list NodeKey * list (list Z)) (s : SMT)
    (out : SMT * result (list NodeKey * list (list Z))) : Prop :=
  (polls s <= polls out.1 <= polls s + p)%nat
  /\ forall b', out.2 = Ok b' ->
       polls out.1 = (polls s + p)%nat
       /\ length b'.1 = (length b.1 + n)%nat
       /\ length b'.2 = (length b.2 + n)%nat.

Lemma tally_bind (p1 n1 p2 n2 : nat) (b : list NodeKey * list (list Z))
    (m : M (list NodeKey * list (list Z)))
    (f : list NodeKey * list (list Z) -> M (list NodeKey * list (list Z)))
    (s : SMT) :
  tally p1 n1 b s (m s) ->
  (forall b1 s1, tally p2 n2 b1 s1 (f b1 s1)) ->
  tally (p1 + p2) (n1 + n2) b s (bind m f s).
Proof.
  unfold tally. intros [Hp1 Hok1] Hf. unfold bind.
  destruct (m s) as [s1 [b1|e|q]]; cbn [fst snd] in *.
  - destruct (Hok1 b1 eq_refl) as (Hs1 & Hk1 & Hv1).
    destruct (Hf b1 s1) as [Hp2 Hok2]. split; [lia|].
    intros b' Hb'. destruct (Hok2 b' Hb') as (Hs2 & Hk2 & Hv2). lia.
  - split; [lia|done].
  - split; [lia|done].
Qed.

Lemma tally_checked (p n : nat) (b : list NodeKey * list (list Z))
    (m : M (list NodeKey * list (list Z))) (s : SMT) :
  (forall s1, tally p n b s1 (m s1)) ->
  tally (S p) n b s (bind (check_done ctx logPrefix) (fun _ => m) s).
Proof.
  intros Hm. unfold tally, bind, check_done.
  destruct (ctx (polls s)); cbn [fst snd polls].
  { split; [lia|done]. }
  specialize (Hm {| Db := Db s; calls := calls s; polls := S (polls s) |}).
  unfold tally in Hm. destruct Hm as [Hp Hok]. cbn [polls] in *. split; [lia|].
  intros b' Hb'. destruct (Hok b' Hb') as (? & ? & ?). lia.
Qed.

Lemma tally_batchValue (b : list NodeKey * list (list Z)) (key : NodeKey)
    (value : option Z) (kind : Z) (addr : list Z) (hash : result (list Z))
    (s : SMT) :
  tally 0 1 b s (batchValue b key value kind addr hash s).
Proof.
  unfold batchValue, bind, lift, appendToValuesBatchStorageBigInt,
    InsertKeySource, DeleteKeySource, on_store, ret, tally.
  destruct (NodeValue8FromBigInt value) as [v| |]; cbn [fst snd];
    [|split; [lia|done]..].
  destruct (IsZero v); cbn [negb fst snd].
  - split; [cbn; lia|]. intros b' [= <-]. cbn. rewrite !length_app. cbn. lia.
  - destruct hash as [h| |]; cbn [fst snd]; [|split; [lia|done]..].
    split; [cbn; lia|]. intros b' [= <-]. cbn. rewrite !length_app. cbn. lia.
Qed.

Lemma tally_forM {X} (p : nat) (w : X -> nat)
    (body : list NodeKey * list (list Z) -> X -> M (list NodeKey * list (list Z)))
    (xs : list X) :
  (forall b x s, tally p (w x) b s (body b x s)) ->
  forall b s, tally (p * length xs) (sum_list (w <$> xs)) b s (forM body b xs s).
Proof.
  intros Hbody. induction xs as [|x xs IH]; intros b s; cbn [forM].
  - rewrite Nat.mul_0_r. unfold ret, tally. cbn. split; [lia|].
    intros b' [= <-]. lia.
  - cbn [length fmap list_fmap sum_list].
    replace (p * S (length xs))%nat with (p + p * length xs)%nat by lia.
    apply tally_bind; [apply Hbody|apply IH].
Qed.

Lemma tally_account (b : list NodeKey * list (list Z))
    (entry : list Z * option Account) (s : SMT) :
  tally 1 2 b s (setStorage_account ctx logPrefix b entry s).
Proof.
  destruct entry as [addr acc]. unfold setStorage_account.
  apply tally_checked. intros s1.
  apply (tally_bind 0 1 0 1); intros; apply tally_batchValue.
Qed.

Lemma tally_code (b : list NodeKey * list (list Z))
    (entry : list Z * string) (s : SMT) :
  tally 1 2 b s (setStorage_code ctx logPrefix b entry s).
Proof.
  destruct entry as [addr code]. unfold setStorage_code.
  apply tally_checked. intros s1. unfold bind at 1. unfold lift.
  destruct (convertBytecodeToBigInt code) as [[bi len]|e|q];
    [|split; [cbn; lia|done]..].
  apply (tally_bind 0 1 0 1); intros; apply tally_batchValue.
Qed.

Lemma tally_storage (b : list NodeKey * list (list Z))
    (entry : list Z * list (string * string)) (s : SMT) :
  tally 1 (length entry.2) b s (setStorage_storage ctx logPrefix b entry s).
Proof.
  destruct entry as [addr storage]. unfold setStorage_storage. cbn [snd].
  apply tally_checked. intros s1.
  pose proof (tally_forM 0 (fun _ => 1%nat) (setStorage_slot addr) storage) as Hloop.
  replace (sum_list ((fun _ => 1%nat) <$> storage)) with (length storage) in Hloop.
  2:{ clear. induction storage as [|x xs IH]; [done|]. cbn. by rewrite <- IH. }
  rewrite Nat.mul_0_l in Hloop. apply Hloop. clear.
  intros b [k v] s. unfold setStorage_slot, bind at 1. unfold lift.
  destruct (KeyContractStorage _ k) as [key|e|q]; [|split; [cbn; lia|done]..].
  apply tally_batchValue.
Qed.

(** The number of keys and values [SetStorage] batches for its inputs: two
    per account, two per code, one per storage slot; it is the capacity the
    slices are allocated with. *)
Definition initialCapacity (accChanges : list (list Z * option Account))
    (codeChanges : list (list Z * string))
    (storageChanges : list (list Z * list (string * string))) : nat :=
  (length accChanges * 2 + length codeChanges * 2
   + sum_list ((fun entry => length entry.2) <$> storageChanges))%nat.

Lemma tally_collect (accChanges : list (list Z * option Account))
    (codeChanges : list (list Z * string))
    (storageChanges : list (list Z * list (string * string))) (s : SMT) :
  tally (length accChanges + length codeChanges + length storageChanges)
        (initialCapacity accChanges codeChanges storageChanges) ([], []) s
        (setStorage_collect ctx logPrefix accChanges codeChanges storageChanges s).
Proof.
  unfold setStorage_collect, initialCapacity.
  assert (Hsum : forall {X} (l : list X),
             sum_list ((fun _ => 2%nat) <$> l) = (length l * 2)%nat).
  { intros X l. induction l as [|x l IH]; [done|]. cbn. rewrite IH. lia. }
  rewrite <- !Hsum.
  rewrite <- (Nat.mul_1_l (length accChanges)), <- (Nat.mul_1_l (length codeChanges)),
    <- (Nat.mul_1_l (length storageChanges)).
  rewrite <- !Nat.add_assoc.
  apply tally_bind; [apply tally_forM, tally_account|]. intros b1 s1.
  apply tally_bind; [apply tally_forM, tally_code|]. intros b2 s2.
  apply tally_forM, tally_storage.
Qed.

(** X10. When [SetStorage] succeeds, the slices it returns have the length
    [initialCapacity] computes before the loops: two entries per changed
    account, two per changed code, and one per storage slot of every
    changed address, zero values included. *)
Theorem SetStorage_batch_size
    (accChanges : list (list Z * option Account))
    (codeChanges : list (list Z * string))
    (storageChanges : list (list Z * list (string * string)))
    (s s' : SMT) (keys : list NodeKey) (vals : list (list Z)) :
  SetStorage ctx logPrefix accChanges codeChanges storageChanges s
  = (s', Ok (Some keys, Some vals)) ->
  length keys = initialCapacity accChanges codeChanges storageChanges
  /\ length vals = initialCapacity accChanges codeChanges storageChanges.
Proof.
  intros Hrun.
  apply SetStorage_run in Hrun as [(_ & _ & _ & _ & [=])|(s1 & r1 & Hcol & Hr1)].
  pose proof (tally_collect accChanges codeChanges storageChanges s) as [_ Hok].
  rewrite Hcol in Hok. cbn [fst snd] in Hok.
  destruct r1 as [[keys1 vals1]|e|q]; [|by destruct Hr1..].
  destruct Hr1 as [_ Hr].
  destruct (InsertBatch (Db s1) keys1 vals1).2; [|done..].
  injection Hr as <- <-.
  destruct (Hok _ eq_refl) as (_ & Hk & Hv). cbn in Hk, Hv. done.
Qed.

(** X11. [SetStorage] polls the context once per changed account, once per
    changed code and once per address with changed storage, and not between
    the slots of one address: a run polls at most that many times, and a
    run that succeeds exactly that many. *)
Theorem SetStorage_polls_per_address
    (accChanges : list (list Z * option Account))
    (codeChanges : list (list Z * string))
    (storageChanges : list (list Z * list (string * string)))
    (s s' : SMT) (r : result (option (list NodeKey) * option (list (list Z)))) :
  SetStorage ctx logPrefix accChanges codeChanges storageChanges s = (s', r) ->
  (polls s' <= polls s + (length accChanges + length codeChanges
                          + length storageChanges))%nat
  /\ (is_ok r = true ->
      polls s' = (polls s + (length accChanges + length codeChanges
                             + length storageChanges))%nat).
Proof.
  intros Hrun.
  apply SetStorage_run in Hrun
    as [(-> & -> & -> & -> & _)|(s1 & r1 & Hcol & Hr1)]; [cbn; lia|].
  pose proof (tally_collect accChanges codeChanges storageChanges s) as [Hp Hok].
  rewrite Hcol in Hp, Hok. cbn [fst snd] in Hp, Hok.
  destruct r1 as [[keys1 vals1]|e|q].
  - destruct Hr1 as [-> _]. cbn [polls].
    destruct (Hok _ eq_refl) as (Hs1 & _). lia.
  - destruct Hr1 as [-> ->]. split; [lia|done].
  - destruct Hr1 as [-> ->]. split; [lia|done].
Qed.

End set_storage_tally.

(** ** [SetStorage]: where its key sources come from, and when it succeeds *)

Section set_storage_origin.
Context `{Helpers} `{Engine}.
Variable ctx : context.
Variable logPrefix : string.
Variable accChanges : list (list Z * option Account).
Variable codeChanges : list (list Z * string).
Variable storageChanges : list (list Z * list (string * string)).

(** The key sources the entries of the three maps give rise to: for the
    balance and nonce keys of a changed account and the code and length
    keys of a changed code, the kind and the address with the zero hash;
    for the key of a changed slot, the address and the hash of the slot. *)
Inductive key_source_origin : NodeKey -> list Z -> Prop :=
  | origin_balance addr acc :
      (addr, acc) ∈ accChanges ->
      key_source_origin (KeyEthAddrBalance (AddressString addr))
                        (EncodeKeySource KEY_BALANCE addr zeroHash)
  | origin_nonce addr acc :
      (addr, acc) ∈ accChanges ->
      key_source_origin (KeyEthAddrNonce (AddressString addr))
                        (EncodeKeySource KEY_NONCE addr zeroHash)
  | origin_code addr code :
      (addr, code) ∈ codeChanges ->
      key_source_origin (KeyContractCode (AddressString addr))
                        (EncodeKeySource SC_CODE addr zeroHash)
  | origin_length addr code :
      (addr, code) ∈ codeChanges ->
      key_source_origin (KeyContractLength (AddressString addr))
                        (EncodeKeySource SC_LENGTH addr zeroHash)
  | origin_storage addr storage k v key sp :
      (addr, storage) ∈ storageChanges ->
      (k, v) ∈ storage ->
      KeyContractStorage (AddressString addr) k = Ok key ->
      StrValToBigInt k = Some sp ->
      key_source_origin key (EncodeKeySource SC_STORAGE addr (BigToHash sp)).

(** A call that, if it writes a key source, writes one of these. *)
Definition traced (c : call) : Prop :=
  match c with
  | CallInsertKeySource k ks => key_source_origin k ks
  | _ => True
  end.

(** The calls a step makes, whatever its outcome, are all [traced]. *)
Definition traces {A} (s : SMT) (out : SMT * result A) : Prop :=
  exists evs, calls out.1 = calls s ++ evs /\ Forall traced evs.

Lemma traces_silent {A} (s : SMT) (r : result A) (p : nat) :
  traces s ({| Db := Db s; calls := calls s; polls := p |}, r).
Proof. exists []. cbn. by rewrite app_nil_r. Qed.

Lemma traces_bind {A B} (m : M A) (f : A -> M B) (s : SMT) :
  traces s (m s) -> (forall a s1, traces s1 (f a s1)) -> traces s (bind m f s).
Proof.
  intros (e1 & Hc1 & Ht1) Hf. unfold bind.
  destruct (m s) as [s1 [a|e|q]]; cbn [fst snd] in *;
    [|by exists e1..].
  destruct (Hf a s1) as (e2 & Hc2 & Ht2). exists (e1 ++ e2). split.
  - by rewrite Hc2, Hc1, app_assoc.
  - by apply Forall_app.
Qed.

Lemma traces_lift {A} (r : result A) (s : SMT) : traces s (lift r s).
Proof. unfold lift. exists []. cbn. by rewrite app_nil_r. Qed.

Lemma traces_check_done (s : SMT) : traces s (check_done ctx logPrefix s).
Proof. apply traces_silent. Qed.

Lemma traces_forM {X B} (body : B -> X -> M B) (xs : list X) :
  (forall b x s, x ∈ xs -> traces s (body b x s)) ->
  forall b s, traces s (forM body b xs s).
Proof.
  induction xs as [|x xs IH]; intros Hbody b s; cbn [forM].
  - apply traces_lift.
  - apply traces_bind; [apply Hbody; left|].
    intros b1 s1. apply IH. intros b2 y s2 Hy. apply Hbody. by right.
Qed.

Lemma traces_bind_lift {A B} (r : result A) (f : A -> M B) (s : SMT) :
  (forall a, r = Ok a -> traces s (f a s)) -> traces s (bind (lift r) f s).
Proof.
  intros Hf. unfold bind, lift. destruct r as [a|e|q]; [by apply Hf|..];
    exists []; cbn; by rewrite app_nil_r.
Qed.

Lemma traces_batchValue (b : list NodeKey * list (list Z)) (key : NodeKey)
    (value : option Z) (kind : Z) (addr : list Z) (hash : result (list Z))
    (s : SMT) :
  (forall h, hash = Ok h -> key_source_origin key (EncodeKeySource kind addr h)) ->
  traces s (batchValue b key value kind addr hash s).
Proof.
  intros Horigin. unfold batchValue.
  apply traces_bind; [apply traces_lift|]. intros [vals' isDelete] s1.
  destruct isDelete; cbn [negb].
  - apply traces_bind; [|intros; apply traces_lift].
    exists [CallDeleteKeySource key]. split; [done|]. by repeat constructor.
  - apply traces_bind_lift. intros h Hh.
    apply traces_bind; [|intros; apply traces_lift].
    exists [CallInsertKeySource key (EncodeKeySource kind addr h)].
    split; [done|]. repeat constructor. cbn. by apply Horigin.
Qed.

Lemma traces_collect (s : SMT) :
  traces s (setStorage_collect ctx logPrefix accChanges codeChanges
                               storageChanges s).
Proof.
  unfold setStorage_collect.
  apply traces_bind; [|intros b1 s1; apply traces_bind; [|intros b2 s2]].
  - apply traces_forM. intros b [addr acc] s1 Hin. unfold setStorage_account.
    apply traces_bind; [apply traces_check_done|]. intros _ s2.
    apply traces_bind; [|intros b1 s3]; apply traces_batchValue;
      intros h [= <-]; econstructor; exact Hin.
  - apply traces_forM. intros b [addr code] s3 Hin. unfold setStorage_code.
    apply traces_bind; [apply traces_check_done|]. intros _ s4.
    apply traces_bind_lift. intros [bi len] _.
    apply traces_bind; [|intros b3 s5]; apply traces_batchValue;
      intros h [= <-]; econstructor; exact Hin.
  - apply traces_forM. intros b [addr storage] s3 Hin.
    unfold setStorage_storage.
    apply traces_bind; [apply traces_check_done|]. intros _ s4.
    apply traces_forM. intros b3 [k v] s5 Hkv. unfold setStorage_slot.
    apply traces_bind_lift. intros key Hkey.
    apply traces_batchValue. intros h Hh.
    destruct (StrValToBigInt k) as [sp|] eqn:Hsp; [|done].
    injection Hh as <-. by eapply origin_storage.
Qed.

(** X12. Every key source a run of [SetStorage] writes, whatever the
    outcome of the run, comes from an entry of its three maps: it is written
    for the balance or nonce key of a changed account or the code or length
    key of a changed code, holding that kind and address with the zero
    hash, or for the key of a changed storage slot, holding the address and
    the hash of the slot's position. *)
Theorem SetStorage_key_sources_traced (s : SMT) :
  Forall traced
    (new_calls s (SetStorage ctx logPrefix accChanges codeChanges
                             storageChanges s).1).
Proof.
  destruct (SetStorage ctx logPrefix accChanges codeChanges storageChanges s)
    as [s' r] eqn:Hrun. cbn [fst].
  apply SetStorage_run in Hrun
    as [(_ & _ & _ & -> & _)|(s1 & r1 & Hcol & Hr1)].
  { unfold new_calls. by rewrite drop_all. }
  pose proof (traces_collect s) as (evs & Hc & Ht).
  rewrite Hcol in Hc. cbn [fst] in Hc.
  destruct r1 as [[keys vals]|e|q].
  - destruct Hr1 as [-> _].
    rewrite (new_calls_app s _ (evs ++ [CallInsertBatch keys vals])).
    + apply Forall_app. split; [done|]. by repeat constructor.
    + cbn. by rewrite Hc, app_assoc.
  - destruct Hr1 as [-> _]. by rewrite (new_calls_app s s1 evs).
  - destruct Hr1 as [-> _]. by rewrite (new_calls_app s s1 evs).
Qed.

(** A loop whose body succeeds on every element succeeds. *)
Lemma forM_succeeds {X B} (body : B -> X -> M B) (xs : list X) :
  (forall b x s, x ∈ xs -> exists s' b', body b x s = (s', Ok b')) ->
  forall b s, exists s' b', forM body b xs s = (s', Ok b').
Proof.
  induction xs as [|x xs IH]; intros Hbody b s; cbn [forM].
  - by exists s, b.
  - unfold bind. destruct (Hbody b x s) as (s1 & b1 & ->); [left|].
    apply IH. intros b2 y s2 Hy. apply Hbody. by right.
Qed.

Lemma batchValue_succeeds (b : list NodeKey * list (list Z)) (key : NodeKey)
    (x : Z) (kind : Z) (addr h : list Z) (s : SMT) :
  exists s' b', batchValue b key (Some x) kind addr (Ok h) s = (s', Ok b').
Proof.
  unfold batchValue, bind, lift, appendToValuesBatchStorageBigInt.
  rewrite NodeValue8FromBigInt_lanes32.
  destruct (IsZero (lanes32 x)); cbn; eauto.
Qed.

Lemma convertBytecodeToBigInt_succeeds (code : string) :
  exists bi len, convertBytecodeToBigInt code = Ok (bi, len).
Proof.
  unfold convertBytecodeToBigInt. cbv zeta.
  destruct (decide (String.length code = 0%nat)); eauto.
Qed.

(** X13. [SetStorage] gets as far as [InsertBatch] whenever the context is
    never done and, for every changed slot, the storage key can be derived,
    the value string parses and the slot name is a number: the three loops
    then succeed, and unless the three maps are all empty the result of
    [SetStorage] is that of [InsertBatch] on the collected keys and values,
    which are returned when it succeeds. *)
Theorem SetStorage_fails_only_in_InsertBatch (s : SMT) :
  (forall i, ctx i = false) ->
  Forall (fun entry : list Z * list (string * string) =>
            Forall (fun kv : string * string =>
                      is_ok (KeyContractStorage (AddressString entry.1) kv.1) = true
                      /\ is_Some (convertStringToBigInt kv.2)
                      /\ is_Some (StrValToBigInt kv.1)) entry.2)
         storageChanges ->
  exists s1 keys vals,
    setStorage_collect ctx logPrefix accChanges codeChanges storageChanges s
    = (s1, Ok (keys, vals))
    /\ (~ (storageChanges = [] /\ accChanges = [] /\ codeChanges = []) ->
        (SetStorage ctx logPrefix accChanges codeChanges storageChanges s).2
        = match (InsertBatch (Db s1) keys vals).2 with
          | Ok _ => Ok (Some keys, Some vals)
          | Err e => Err e
          | Panic p => Panic p
          end).
Proof.
  intros Hctx Hsto.
  assert (Hcheck : forall {B} (m : M B) s0,
             bind (check_done ctx logPrefix) (fun _ => m) s0
             = m {| Db := Db s0; calls := calls s0; polls := S (polls s0) |}).
  { intros B m s0. unfold bind, check_done. by rewrite Hctx. }
  assert (Hcol : exists s1 b1,
             setStorage_collect ctx logPrefix accChanges codeChanges
                                storageChanges s = (s1, Ok b1)).
  { unfold setStorage_collect, bind at 1.
    destruct (forM_succeeds (setStorage_account ctx logPrefix) accChanges)
      with (b := ([] : list NodeKey, [] : list (list Z))) (s := s)
      as (s1 & b1 & ->).
    { intros b [addr acc] s0 _. unfold setStorage_account. rewrite Hcheck.
      unfold bind.
      destruct (batchValue_succeeds b (KeyEthAddrBalance (AddressString addr))
                  (match acc with Some a => Balance a | None => 0 end)
                  KEY_BALANCE addr zeroHash
                  {| Db := Db s0; calls := calls s0; polls := S (polls s0) |})
        as (s2 & b2 & ->).
      apply batchValue_succeeds. }
    unfold bind at 1.
    destruct (forM_succeeds (setStorage_code ctx logPrefix) codeChanges)
      with (b := b1) (s := s1) as (s2 & b2 & ->).
    { intros b [addr code] s0 _. unfold setStorage_code. rewrite Hcheck.
      unfold bind at 1. unfold lift.
      destruct (convertBytecodeToBigInt_succeeds code) as (bi & len & ->).
      unfold bind.
      destruct (batchValue_succeeds b (KeyContractCode (AddressString addr))
                  bi SC_CODE addr zeroHash
                  {| Db := Db s0; calls := calls s0; polls := S (polls s0) |})
        as (s3 & b3 & ->).
      apply batchValue_succeeds. }
    apply forM_succeeds. intros b [addr storage] s0 Hin.
    unfold setStorage_storage. rewrite Hcheck.
    apply forM_succeeds. intros b3 [k v] s3 Hkv. unfold setStorage_slot.
    rewrite Forall_forall in Hsto. specialize (Hsto _ Hin). cbn [fst snd] in Hsto.
    rewrite Forall_forall in Hsto.
    specialize (Hsto _ Hkv). cbn [fst snd] in Hsto.
    destruct Hsto as (Hkey & [x ->] & [sp ->]).
    unfold bind, lift.
    destruct (KeyContractStorage (AddressString addr) k) as [key| |]; [|done..].
    apply batchValue_succeeds. }
  destruct Hcol as (s1 & [keys vals] & Hcol). exists s1, keys, vals.
  split; [done|]. intros Hne.
  destruct (SetStorage ctx logPrefix accChanges codeChanges storageChanges s)
    as [s' r] eqn:Hrun. cbn [snd].
  apply SetStorage_run in Hrun as [(? & ? & ? & _)|(s1' & r1 & Hcol' & Hr1)];
    [by destruct Hne|].
  rewrite Hcol in Hcol'. injection Hcol' as <- <-. by destruct Hr1.
Qed.

End set_storage_origin.

(** ** The single-insert path: accounts and bytecode *)

Section single_inserts.
Context `{Helpers} `{Engine}.

(** X14. [SetAccountStorage] is not atomic, and treats a nil account as the
    zero balance and the zero nonce. With [balance] and [nonce] those of the
    account: when the insert of the balance fails, the run ends with that
    error after this one call, before any key source is written; when it
    succeeds and the insert of the nonce fails, the run ends with that
    error and the balance's key source, already written, is not taken
    back; when both succeed, the calls are the two inserts, each followed
    by its key-source write, and the nonce's key source can be read back
    from the store. *)
Theorem SetAccountStorage_steps (addr : list Z) (acc : option Account) (s : SMT) :
  let ethAddr := AddressString addr in
  let balance := match acc with Some a => Balance a | None => 0 end in
  let nonce := match acc with Some a => Nonce a | None => 0 end in
  let kb := KeyEthAddrBalance ethAddr in
  let kn := KeyEthAddrNonce ethAddr in
  let ksb := EncodeKeySource KEY_BALANCE (HexToAddress ethAddr) zeroHash in
  let ksn := EncodeKeySource KEY_NONCE (HexToAddress ethAddr) zeroHash in
  let out := SetAccountStorage addr acc s in
  let first := InsertKA (Db s) kb balance in
  let second := InsertKA (db.InsertKeySource first.1 kb ksb).1 kn nonce in
  match first.2, second.2 with
  | Ok _, Ok _ =>
      out.2 = Ok tt
      /\ new_calls s out.1 = [CallInsertKA kb balance; CallInsertKeySource kb ksb;
                              CallInsertKA kn nonce; CallInsertKeySource kn ksn]
      /\ GetKeySource (Db out.1) kn = Ok ksn
  | Ok _, Err e =>
      out.2 = Err e
      /\ new_calls s out.1 = [CallInsertKA kb balance; CallInsertKeySource kb ksb;
                              CallInsertKA kn nonce]
      /\ Db out.1 = second.1
  | Ok _, Panic p =>
      out.2 = Panic p
      /\ new_calls s out.1 = [CallInsertKA kb balance; CallInsertKeySource kb ksb;
                              CallInsertKA kn nonce]
      /\ Db out.1 = second.1
  | Err e, _ =>
      out.2 = Err e /\ new_calls s out.1 = [CallInsertKA kb balance]
      /\ Db out.1 = first.1
  | Panic p, _ =>
      out.2 = Panic p /\ new_calls s out.1 = [CallInsertKA kb balance]
      /\ Db out.1 = first.1
  end.
Proof.
  cbv zeta.
  assert (Hstate : forall balance nonce,
    let ethAddr := AddressString addr in
    let kb := KeyEthAddrBalance ethAddr in
    let kn := KeyEthAddrNonce ethAddr in
    let ksb := EncodeKeySource KEY_BALANCE (HexToAddress ethAddr) zeroHash in
    let ksn := EncodeKeySource KEY_NONCE (HexToAddress ethAddr) zeroHash in
    let out := bind (SetAccountState ethAddr balance nonce) (fun _ => ret tt) s in
    let first := InsertKA (Db s) kb balance in
    let second := InsertKA (db.InsertKeySource first.1 kb ksb).1 kn nonce in
    match first.2, second.2 with
    | Ok _, Ok _ =>
        out.2 = Ok tt
        /\ new_calls s out.1 = [CallInsertKA kb balance; CallInsertKeySource kb ksb;
                                CallInsertKA kn nonce; CallInsertKeySource kn ksn]
        /\ GetKeySource (Db out.1) kn = Ok ksn
    | Ok _, Err e =>
        out.2 = Err e
        /\ new_calls s out.1 = [CallInsertKA kb balance; CallInsertKeySource kb ksb;
                                CallInsertKA kn nonce]
        /\ Db out.1 = second.1
    | Ok _, Panic p =>
        out.2 = Panic p
        /\ new_calls s out.1 = [CallInsertKA kb balance; CallInsertKeySource kb ksb;
                                CallInsertKA kn nonce]
        /\ Db out.1 = second.1
    | Err e, _ =>
        out.2 = Err e /\ new_calls s out.1 = [CallInsertKA kb balance]
        /\ Db out.1 = first.1
    | Panic p, _ =>
        out.2 = Panic p /\ new_calls s out.1 = [CallInsertKA kb balance]
        /\ Db out.1 = first.1
    end).
  { intros balance nonce. cbv zeta.
    unfold SetAccountState, SetAccountBalance, SetAccountNonce, bind,
      call_InsertKA, on_store, ret, db.InsertKeySource.
    destruct (InsertKA (Db s) _ balance) as [m1 [r1|e|p]]; cbn [fst snd Db calls].
    - destruct (InsertKA _ _ nonce) as [m2 [r2|e|p]]; cbn [fst snd Db calls];
        (split; [done|split; [|try done]]);
        try (apply new_calls_app; by rewrite <- !app_assoc).
      unfold GetKeySource. cbn [DbKeySource]. by rewrite lookup_insert_eq.
    - split; [done|split; [|done]]. by apply new_calls_app.
    - split; [done|split; [|done]]. by apply new_calls_app. }
  destruct acc as [a|]; apply Hstate.
Qed.

End single_inserts.

(** ** The batch path against the single-insert path *)

(** The keys and scalars of the calls of [InsertKA] among [cs], in order. *)
Definition scalar_inserts (cs : list call) : list (NodeKey * Z) :=
  omap (fun c => match c with
                 | CallInsertKA k v => Some (k, v)
                 | _ => None
                 end) cs.

(** A key and scalar as [SetStorage] batches them: the scalar as its eight
    32-bit lanes. *)
Definition batched (kv : NodeKey * Z) : NodeKey * list Z := (kv.1, lanes32 kv.2).

Section batch_against_single.
Context `{Helpers} `{Engine}.
Variable ctx : context.
Variable logPrefix : string.

Lemma batchValue_run (b : list NodeKey * list (list Z)) (key : NodeKey)
    (x : Z) (kind : Z) (addr h : list Z) (s : SMT) :
  (batchValue b key (Some x) kind addr (Ok h) s).2
  = Ok (b.1 ++ [key], b.2 ++ [lanes32 x]).
Proof.
  unfold batchValue, bind, lift, appendToValuesBatchStorageBigInt.
  rewrite NodeValue8FromBigInt_lanes32.
  by destruct (IsZero (lanes32 x)).
Qed.

Lemma bind_snd {A B} (m : M A) (f : A -> M B) (s : SMT) (a : A) :
  (m s).2 = Ok a -> (bind m f s).2 = (f a (m s).1).2.
Proof. unfold bind. destruct (m s) as [s1 r]. cbn. by intros ->. Qed.

Lemma SetStorage_collected (accChanges : list (list Z * option Account))
    (codeChanges : list (list Z * string))
    (storageChanges : list (list Z * list (string * string)))
    (s : SMT) (keys : list NodeKey) (vals : list (list Z)) :
  (SetStorage ctx logPrefix accChanges codeChanges storageChanges s).2
  = Ok (Some keys, Some vals) ->
  (setStorage_collect ctx logPrefix accChanges codeChanges storageChanges s).2
  = Ok (keys, vals).
Proof.
  destruct (SetStorage ctx logPrefix accChanges codeChanges storageChanges s)
    as [s' r] eqn:Hrun. cbn [snd]. intros ->.
  apply SetStorage_run in Hrun as [(_ & _ & _ & _ & [=])|(s1 & r1 & -> & Hr1)].
  cbn [snd]. destruct r1 as [[keys1 vals1]|e|q]; [|by destruct Hr1..].
  destruct Hr1 as [_ Hr].
  destruct (InsertBatch (Db s1) keys1 vals1).2; [|done..].
  by injection Hr as <- <-.
Qed.

(** X15. The batch path and the single-insert path write the same account
    leaves: when [SetStorage] on one changed account succeeds, the keys and
    values it returns (and hands to [InsertBatch]) are, in order, the keys
    of the two calls of [InsertKA] a successful [SetAccountStorage] makes
    for that account, each with the eight 32-bit lanes of the scalar
    inserted there. *)
Theorem SetStorage_batches_account_inserts (addr : list Z) (acc : option Account)
    (s s0 : SMT) (keys : list NodeKey) (vals : list (list Z)) :
  (SetStorage ctx logPrefix [(addr, acc)] [] [] s).2 = Ok (Some keys, Some vals) ->
  is_ok (SetAccountStorage addr acc s0).2 = true ->
  length keys = length vals
  /\ zip keys vals
     = batched <$> scalar_inserts (new_calls s0 (SetAccountStorage addr acc s0).1).
Proof.
  intros Hbatch Hsingle. apply SetStorage_collected in Hbatch.
  assert (Hone : forall balance nonce,
    is_ok (bind (SetAccountState (AddressString addr) balance nonce)
                (fun _ => ret tt) s0).2 = true ->
    scalar_inserts
      (new_calls s0 (bind (SetAccountState (AddressString addr) balance nonce)
                          (fun _ => ret tt) s0).1)
    = [(KeyEthAddrBalance (AddressString addr), balance);
       (KeyEthAddrNonce (AddressString addr), nonce)]).
  { intros balance nonce.
    unfold SetAccountState, SetAccountBalance, SetAccountNonce, bind,
      call_InsertKA, on_store, ret, db.InsertKeySource.
    destruct (InsertKA (Db s0) _ balance) as [m1 [r1|e|p]];
      cbn [fst snd Db calls]; [|done..].
    destruct (InsertKA _ _ nonce) as [m2 [r2|e|p]];
      cbn [fst snd Db calls]; [|done..].
    intros _. erewrite new_calls_app; [|by rewrite <- !app_assoc]. done. }
  assert (Hsteps : scalar_inserts (new_calls s0 (SetAccountStorage addr acc s0).1)
    = [(KeyEthAddrBalance (AddressString addr),
        match acc with Some a => Balance a | None => 0 end);
       (KeyEthAddrNonce (AddressString addr),
        match acc with Some a => Nonce a | None => 0 end)]).
  { destruct acc as [a|]; by apply Hone. }
  rewrite Hsteps. clear Hsteps Hone Hsingle.
  unfold setStorage_collect in Hbatch. cbn [forM] in Hbatch.
  unfold setStorage_account, bind at 1 2 3, check_done in Hbatch.
  destruct (ctx (polls s)); [done|]. cbn [fst snd] in Hbatch.
  unfold bind at 1 in Hbatch.
  match type of Hbatch with
  | context [batchValue ?b ?k (Some ?x) ?kind ?a (Ok ?h) ?s1] =>
      pose proof (batchValue_run b k x kind a h s1) as Hb1;
      destruct (batchValue b k (Some x) kind a (Ok h) s1) as [s2 r2]
  end.
  cbn [fst snd] in Hb1, Hbatch. subst r2.
  match type of Hbatch with
  | context [batchValue ?b ?k (Some ?x) ?kind ?a (Ok ?h) ?s1] =>
      pose proof (batchValue_run b k x kind a h s1) as Hb2;
      destruct (batchValue b k (Some x) kind a (Ok h) s1) as [s3 r3]
  end.
  cbn [fst snd] in Hb2, Hbatch. subst r3.
  unfold ret, bind in Hbatch. cbn in Hbatch. by injection Hbatch as <- <-.
Qed.

(** X16. The batch path and the single-insert path write the same code
    leaves: when [SetStorage] on one changed code succeeds, the keys and
    values it returns are, in order, the keys of the two calls of
    [InsertKA] a successful [SetContractBytecode] makes for that address
    and bytecode (the code hash and the code length), each with the eight
    32-bit lanes of the scalar inserted there. *)
Theorem SetStorage_batches_bytecode_inserts (addr : list Z) (code : string)
    (s s0 : SMT) (keys : list NodeKey) (vals : list (list Z)) :
  (SetStorage ctx logPrefix [] [(addr, code)] [] s).2 = Ok (Some keys, Some vals) ->
  is_ok (SetContractBytecode (AddressString addr) code s0).2 = true ->
  length keys = length vals
  /\ zip keys vals
     = batched <$> scalar_inserts
                     (new_calls s0 (SetContractBytecode (AddressString addr) code s0).1).
Proof.
  intros Hbatch Hsingle. apply SetStorage_collected in Hbatch.
  destruct (convertBytecodeToBigInt code) as [[bi len]|e|q] eqn:Hconv.
  2,3: unfold convertBytecodeToBigInt in Hconv; cbv zeta in Hconv;
       by destruct (decide _).
  assert (Hsteps : scalar_inserts
            (new_calls s0 (SetContractBytecode (AddressString addr) code s0).1)
    = [(KeyContractCode (AddressString addr), bi);
       (KeyContractLength (AddressString addr), Z.of_nat len)]).
  { revert Hsingle.
    unfold SetContractBytecode, bind, lift, call_InsertKA, on_store,
      db.InsertKeySource. rewrite Hconv. cbn [fst snd Db calls].
    destruct (InsertKA (Db s0) _ bi) as [m1 [r1|e|p]];
      cbn [fst snd Db calls]; [|done..].
    destruct (InsertKA _ _ (Z.of_nat len)) as [m2 [r2|e|p]];
      cbn [fst snd Db calls]; [|done..].
    intros _. erewrite new_calls_app; [|by rewrite <- !app_assoc]. done. }
  rewrite Hsteps. clear Hsteps Hsingle.
  unfold setStorage_collect in Hbatch. cbn [forM] in Hbatch.
  unfold ret at 1, bind at 1 in Hbatch. cbn [fst snd] in Hbatch.
  unfold setStorage_code, bind at 1 2 3, check_done in Hbatch.
  destruct (ctx (polls s)); [done|]. cbn [fst snd] in Hbatch.
  unfold lift at 1, bind at 1 in Hbatch. rewrite Hconv in Hbatch.
  unfold bind at 1 in Hbatch.
  match type of Hbatch with
  | context [batchValue ?b ?k (Some ?x) ?kind ?a (Ok ?h) ?s1] =>
      pose proof (batchValue_run b k x kind a h s1) as Hb1;
      destruct (batchValue b k (Some x) kind a (Ok h) s1) as [s2 r2]
  end.
  cbn [fst snd] in Hb1, Hbatch. subst r2.
  match type of Hbatch with
  | context [batchValue ?b ?k (Some ?x) ?kind ?a (Ok ?h) ?s1] =>
      pose proof (batchValue_run b k x kind a h s1) as Hb2;
      destruct (batchValue b k (Some x) kind a (Ok h) s1) as [s3 r3]
  end.
  cbn [fst snd] in Hb2, Hbatch. subst r3.
  unfold ret, bind in Hbatch. cbn in Hbatch. by injection Hbatch as <- <-.
Qed.

End batch_against_single.

(** ** The collectors of the regeneration stage *)

Lemma of_lanes32_zero (ls : list Z) : Forall (eq 0) ls -> of_lanes32 ls = 0.
Proof.
  unfold of_lanes32. induction 1 as [|l ls <- _ IH]; [done|].
  cbn [fold_right]. rewrite IH. lia.
Qed.

(** The 8-limb value of a 256-bit scalar is zero for the scalar zero only. *)
Lemma IsZero_lanes32 (x : Z) :
  0 <= x < 2 ^ 256 -> IsZero (lanes32 x) = bool_decide (x = 0).
Proof.
  intros Hx. case_bool_decide as H0.
  - subst x. by vm_compute.
  - destruct (IsZero (lanes32 x)) eqn:Hz; [|done]. destruct H0.
    rewrite <- (of_lanes32_lanes32 x Hx). apply of_lanes32_zero.
    unfold IsZero in Hz. rewrite forallb_forall in Hz.
    apply Forall_forall. intros l Hl. symmetry. apply Z.eqb_eq, Hz.
    by apply list_elem_of_In.
Qed.

Lemma NodeValue8FromBigIntArray_lanes32 (x : Z) :
  NodeValue8FromBigIntArray (lanes32 x) = Ok (lanes32 x).
Proof.
  pose proof (NodeValue8FromBigInt_lanes32 x) as Hx.
  unfold NodeValue8FromBigInt in Hx. by rewrite ScalarToArrayBig_lanes32 in Hx.
Qed.

Section collectors.
Context `{Helpers}.
Import stages.

(** X17. [insertAccountStateToKV] collects what is not zero, and only that.
    For a balance and a nonce of at most 256 bits it succeeds; the keys it
    returns are the given ones followed by the balance key if the balance
    is not zero and the nonce key if the nonce is not zero; an account
    whose balance and nonce are zero leaves the store as it was; and a
    nonce that is not zero is in the store afterwards, as its eight limbs
    in the account values and with its key source. *)
Theorem insertAccountStateToKV_nonzero_only (m : MemDb) (keys : list NodeKey)
    (ethAddr : string) (balance nonce : Z) :
  0 <= balance < 2 ^ 256 ->
  0 <= nonce < 2 ^ 256 ->
  let kb := KeyEthAddrBalance ethAddr in
  let kn := KeyEthAddrNonce ethAddr in
  let out := insertAccountStateToKV m keys ethAddr (Some balance) (Some nonce) in
  out.2 = Ok (keys ++ (if decide (balance = 0) then [] else [kb])
                   ++ (if decide (nonce = 0) then [] else [kn]))
  /\ (balance = 0 -> nonce = 0 -> out.1 = m)
  /\ (nonce ≠ 0 ->
      DbAccVal out.1 !! ConvertArrayToHex (key_slice kn)
      = Some (ConvertUint64ToHex <$> lanes32 nonce)
      /\ GetKeySource out.1 kn
         = Ok (EncodeKeySource KEY_NONCE (HexToAddress ethAddr) zeroHash)).
Proof.
  intros Hb Hn. cbv zeta. unfold insertAccountStateToKV.
  rewrite !ScalarToArrayBig_lanes32, !NodeValue8FromBigIntArray_lanes32.
  rewrite !IsZero_lanes32 by done.
  destruct (decide (balance = 0)) as [Hb0|Hb0],
           (decide (nonce = 0)) as [Hn0|Hn0];
    rewrite ?(bool_decide_eq_true_2 _ Hb0), ?(bool_decide_eq_false_2 _ Hb0),
            ?(bool_decide_eq_true_2 _ Hn0), ?(bool_decide_eq_false_2 _ Hn0);
    cbn [negb fst snd]; rewrite ?app_nil_r, <- ?app_assoc;
    (split; [done|split; [try done|try done]]).
  - intros _. unfold GetKeySource, CollectKeySource, CollectAccountValue.
    cbn. by rewrite !lookup_insert_eq.
  - intros _. unfold GetKeySource, CollectKeySource, CollectAccountValue.
    cbn. by rewrite !lookup_insert_eq.
Qed.

(** What a collector may do to the store: it adds account values and key
    sources, and replaces some; it removes none, and leaves the tree
    nodes, the hash keys, the code, the last root and the depth alone. *)
Definition collected_into (m m' : MemDb) : Prop :=
  db.Db m' = db.Db m /\ DbHashKey m' = DbHashKey m /\ DbCode m' = DbCode m
  /\ LastRoot m' = LastRoot m /\ Depth m' = Depth m
  /\ (forall h, is_Some (DbAccVal m !! h) -> is_Some (DbAccVal m' !! h))
  /\ (forall h, is_Some (DbKeySource m !! h) -> is_Some (DbKeySource m' !! h)).

Lemma collected_into_refl (m : MemDb) : collected_into m m.
Proof. by repeat split. Qed.

Lemma collected_into_trans (m1 m2 m3 : MemDb) :
  collected_into m1 m2 -> collected_into m2 m3 -> collected_into m1 m3.
Proof.
  intros (? & ? & ? & ? & ? & Ha1 & Hk1) (? & ? & ? & ? & ? & Ha2 & Hk2).
  repeat split; try congruence; auto.
Qed.

Lemma collected_into_value (m : MemDb) (key : NodeKey) (value : list Z) :
  collected_into m (CollectAccountValue m key value).
Proof.
  unfold CollectAccountValue, InsertAccountValue. repeat split; try done.
  cbn. intros h Hh. destruct (decide (ConvertArrayToHex (key_slice key) = h)) as [<-|Hne].
  - by rewrite lookup_insert_eq.
  - by rewrite lookup_insert_ne.
Qed.

Lemma collected_into_key_source (m : MemDb) (key : NodeKey) (ks : list Z) :
  collected_into m (CollectKeySource m key ks).
Proof.
  unfold CollectKeySource, db.InsertKeySource. repeat split; try done.
  cbn. intros h Hh. destruct (decide (ConvertArrayToHex (key_slice key) = h)) as [<-|Hne].
  - by rewrite lookup_insert_eq.
  - by rewrite lookup_insert_ne.
Qed.

(** The value string as [insertContractStorageToKV] parses it is the one
    [convertStringToBigInt] gives. *)
Lemma inline_parse (v : string) :
  (if Go.HasPrefix v "0x" then Go.SetString (Go.drop_chars 2 v) 16
   else Go.SetString v 10)
  = convertStringToBigInt v.
Proof.
  unfold convertStringToBigInt, Go.TrimPrefix. by destruct (Go.HasPrefix v "0x").
Qed.

(** A key with an account value and a key source in the store. *)
Definition present (m : MemDb) (k : NodeKey) : Prop :=
  is_Some (DbAccVal m !! ConvertArrayToHex (key_slice k))
  /\ is_Some (DbKeySource m !! ConvertArrayToHex (key_slice k)).

(** A collector run from the store [m] with the keys [keys]: it only adds
    to the store, and when it succeeds it returns [keys] followed by at
    most [n] keys, each of them [present] in the store it leaves. *)
Definition collects (n : nat) (m : MemDb) (keys : list NodeKey)
    (out : MemDb * result (list NodeKey)) : Prop :=
  collected_into m out.1
  /\ forall keys', out.2 = Ok keys' ->
       exists added, keys' = keys ++ added /\ (length added <= n)%nat
                     /\ Forall (present out.1) added.

Lemma present_mono (m m' : MemDb) (k : NodeKey) :
  collected_into m m' -> present m k -> present m' k.
Proof.
  intros (_ & _ & _ & _ & _ & Ha & Hk) [? ?]. split; [by apply Ha|by apply Hk].
Qed.

Lemma present_collected (m : MemDb) (key : NodeKey) (v ks : list Z) :
  present (CollectKeySource (CollectAccountValue m key v) key ks) key.
Proof.
  unfold present, CollectKeySource, CollectAccountValue. cbn.
  by rewrite !lookup_insert_eq.
Qed.

Lemma collects_failed (n : nat) (m m' : MemDb) (keys : list NodeKey)
    (r : result (list NodeKey)) :
  collected_into m m' -> is_ok r = false -> collects n m keys (m', r).
Proof.
  intros Hm Hr. split; [done|]. cbn [snd]. intros keys' Hk. by rewrite Hk in Hr.
Qed.

Lemma collects_nothing (n : nat) (m : MemDb) (keys : list NodeKey) :
  collects n m keys (m, Ok keys).
Proof.
  split; [apply collected_into_refl|]. intros keys' [= <-].
  exists []. rewrite app_nil_r. split; [done|]. split; [cbn; lia|constructor].
Qed.

(** One collector after another. *)
Lemma collects_seq (n1 n2 : nat) (m m1 : MemDb) (keys keys1 : list NodeKey)
    (out : MemDb * result (list NodeKey)) :
  collects n1 m keys (m1, Ok keys1) -> collects n2 m1 keys1 out ->
  collects (n1 + n2) m keys out.
Proof.
  intros [Hm1 Hok1] [Hm2 Hok2]. cbn [fst snd] in *. split.
  { by eapply collected_into_trans. }
  intros keys' Hk. destruct (Hok1 keys1 eq_refl) as (a1 & -> & Hl1 & Hp1).
  destruct (Hok2 keys' Hk) as (a2 & -> & Hl2 & Hp2).
  exists (a1 ++ a2). rewrite app_assoc. split; [done|]. split.
  - rewrite length_app. lia.
  - apply Forall_app. split; [|done].
    eapply Forall_impl; [exact Hp1|]. intros k. by apply present_mono.
Qed.

Lemma collects_weaken (n n' : nat) (m : MemDb) (keys : list NodeKey)
    (out : MemDb * result (list NodeKey)) :
  (n <= n')%nat -> collects n m keys out -> collects n' m keys out.
Proof.
  intros Hn [Hm Hok]. split; [done|]. intros keys' Hk.
  destruct (Hok keys' Hk) as (added & -> & Hl & Hp). exists added.
  split; [done|]. split; [lia|done].
Qed.

(** Collecting one value when it is not zero. *)
Lemma collects_one (z : bool) (m : MemDb) (keys : list NodeKey) (key : NodeKey)
    (v ks : list Z) :
  collects 1 m keys
    (let '(m, keys) :=
       if z then (CollectKeySource (CollectAccountValue m key v) key ks, keys ++ [key])
       else (m, keys) in
     (m, Ok keys)).
Proof.
  destruct z; [|apply (collects_nothing 1)]. split; cbn [fst snd].
  - eapply collected_into_trans;
      [apply collected_into_value|apply collected_into_key_source].
  - intros keys' [= <-]. exists [key]. split; [done|]. split; [done|].
    constructor; [apply present_collected|constructor].
Qed.

Lemma collects_storage (m : MemDb) (keys : list NodeKey) (ethAddr : string)
    (storage : list (string * string)) :
  collects (length storage) m keys (insertContractStorageToKV m keys ethAddr storage).
Proof.
  revert m keys.
  induction storage as [|[k v] rest IH]; intros m keys; cbn [insertContractStorageToKV].
  { apply collects_nothing. }
  assert (Hskip : collects (length ((k, v) :: rest)) m keys
                    (insertContractStorageToKV m keys ethAddr rest)).
  { eapply collects_weaken; [|apply IH]. cbn [length]. lia. }
  destruct (decide (v = String.EmptyString)) as [_|_]; [exact Hskip|].
  destruct (KeyContractStorage ethAddr k) as [key|e|p];
    [|by apply collects_failed; [apply collected_into_refl|]..].
  rewrite inline_parse.
  destruct (convertStringToBigInt v) as [x|];
    [|by apply collects_failed; [apply collected_into_refl|]].
  rewrite ScalarToArrayBig_lanes32, NodeValue8FromBigIntArray_lanes32.
  destruct (IsZero (lanes32 x)); cbn [negb]; [exact Hskip|].
  destruct (StrValToBigInt k) as [sp|];
    [|by apply collects_failed; [apply collected_into_value|]].
  cbn [length]. eapply (collects_seq 1 (length rest)); [|apply IH].
  apply (collects_one true).
Qed.

(** X18. [insertContractStorageToKV] only ever adds to the store, and
    returns keys it has stored. Whatever its outcome, the store it leaves
    has every account value and key source it had, and the same tree
    nodes, hash keys, code, last root and depth, so that [Get] and
    [IsEmpty] answer as before. When it succeeds, the keys returned are the
    given ones followed by at most one key per slot, and each of the added
    keys has an account value and a key source in the store. *)
Theorem insertContractStorageToKV_collects (m : MemDb) (keys : list NodeKey)
    (ethAddr : string) (storage : list (string * string)) (k : NodeKey) :
  let out := insertContractStorageToKV m keys ethAddr storage in
  collected_into m out.1
  /\ Get out.1 k = Get m k
  /\ IsEmpty out.1 = IsEmpty m
  /\ forall keys', out.2 = Ok keys' ->
       exists added,
         keys' = keys ++ added
         /\ (length added <= length storage)%nat
         /\ Forall (fun k =>
                      is_Some (DbAccVal out.1 !! ConvertArrayToHex (key_slice k))
                      /\ is_Some (DbKeySource out.1 !! ConvertArrayToHex (key_slice k)))
                   added.
Proof.
  cbv zeta. destruct (collects_storage m keys ethAddr storage) as [Hm Hok].
  split; [done|].
  assert (Hdb : db.Db (insertContractStorageToKV m keys ethAddr storage).1 = db.Db m)
    by apply Hm.
  split; [|split].
  - unfold Get. by rewrite Hdb.
  - unfold IsEmpty. by rewrite Hdb.
  - exact Hok.
Qed.

(** X19. Slots that hold nothing leave no trace in the collector: when
    every value of the storage is the empty string, or parses to zero with
    a storage key that can be derived, [insertContractStorageToKV] returns
    the keys it was given and the store it was given. A slot with the empty
    string is skipped before its key is derived, so a slot name no key can
    be derived for does no harm there. *)
Theorem insertContractStorageToKV_skips_empty_and_zero (m : MemDb)
    (keys : list NodeKey) (ethAddr : string) (storage : list (string * string)) :
  Forall (fun kv : string * string =>
            kv.2 = String.EmptyString
            \/ (is_ok (KeyContractStorage ethAddr kv.1) = true
                /\ convertStringToBigInt kv.2 = Some 0)) storage ->
  insertContractStorageToKV m keys ethAddr storage = (m, Ok keys).
Proof.
  induction 1 as [|[k v] rest Hkv _ IH]; cbn [insertContractStorageToKV]; [done|].
  cbn [fst snd] in Hkv.
  destruct (decide (v = String.EmptyString)) as [_|Hne]; [done|].
  destruct Hkv as [->|[Hkey Hzero]]; [done|].
  destruct (KeyContractStorage ethAddr k) as [key|e|p]; [|done..].
  rewrite inline_parse, Hzero.
  rewrite ScalarToArrayBig_lanes32, NodeValue8FromBigIntArray_lanes32.
  by rewrite IsZero_lanes32 by lia.
Qed.

(** X20. [insertContractBytecodeToKV] never fails on a bytecode whose hash
    has at most 256 bits, and collects what is not zero: the code key if
    the hash is not zero, then the length key if the bytecode has at least
    one hexadecimal digit after its prefix. Unlike
    [convertBytecodeToBigInt], it does not replace the hash of the empty
    bytecode by zero. *)
Theorem insertContractBytecodeToKV_nonzero_only (m : MemDb) (keys : list NodeKey)
    (ethAddr : string) (bytecode : string) :
  0 <= HashContractBytecodeBigInt bytecode < 2 ^ 256 ->
  Z.of_nat (String.length bytecode) < 2 ^ 64 ->
  let out := insertContractBytecodeToKV m keys ethAddr bytecode in
  out.2 = Ok (keys
              ++ (if decide (HashContractBytecodeBigInt bytecode = 0) then []
                  else [KeyContractCode ethAddr])
              ++ (if decide (Go.TrimPrefix bytecode "0x" = String.EmptyString) then []
                  else [KeyContractLength ethAddr]))
  /\ (HashContractBytecodeBigInt bytecode = 0 ->
      Go.TrimPrefix bytecode "0x" = String.EmptyString -> out.1 = m).
Proof.
  intros Hhash Hlen. cbv zeta. unfold insertContractBytecodeToKV.
  rewrite !ScalarToArrayBig_lanes32, !NodeValue8FromBigIntArray_lanes32.
  remember (Go.TrimPrefix bytecode "0x") as parsed eqn:Hparsed.
  assert (Hshort : (String.length parsed <= String.length bytecode)%nat).
  { subst parsed. unfold Go.TrimPrefix.
    destruct (Go.HasPrefix bytecode "0x"); [|done].
    destruct bytecode as [|c1 [|c2 rest]]; cbn; lia. }
  remember (String.length (if decide (String.length parsed mod 2 ≠ 0)%nat
                           then "0" +:+ parsed else parsed) / 2)%nat as len eqn:Hl.
  assert (Hlen' : Z.of_nat len < 2 ^ 256 /\ (len = 0%nat <-> parsed = String.EmptyString)).
  { pose proof (Nat.div_mod_eq (String.length parsed) 2) as Hdm.
    pose proof (Nat.mod_upper_bound (String.length parsed) 2 ltac:(lia)) as Hmod.
    destruct (decide (String.length parsed mod 2 ≠ 0)%nat) as [Hodd|Heven].
    - change (String.length ("0" +:+ parsed)) with (S (String.length parsed)) in Hl.
      pose proof (Nat.div_mod_eq (S (String.length parsed)) 2) as Hdm'.
      pose proof (Nat.mod_upper_bound (S (String.length parsed)) 2 ltac:(lia)).
      rewrite <- Hl in Hdm'. split; [lia|]. split.
      + intros ->. destruct parsed; [done|]. cbn in Hodd, Hdm'.
        destruct parsed; cbn in *; lia.
      + intros ->. cbn in Hodd. lia.
    - rewrite <- Hl in Hdm. split; [lia|]. split.
      + intros ->. destruct parsed; [done|]. cbn in Hdm, Heven. lia.
      + intros ->. by subst len. }
  destruct Hlen' as [Hbound Hzero].
  rewrite !IsZero_lanes32 by lia.
  destruct (decide (HashContractBytecodeBigInt bytecode = 0)) as [Hb0|Hb0];
    rewrite ?(bool_decide_eq_true_2 _ Hb0), ?(bool_decide_eq_false_2 _ Hb0);
    destruct (decide (parsed = String.EmptyString)) as [Hp0|Hp0].
  all: assert (Hl0 : bool_decide (Z.of_nat len = 0) = bool_decide (parsed = String.EmptyString))
         by (apply bool_decide_ext; rewrite <- Hzero; lia).
  all: rewrite Hl0.
  all: rewrite ?(bool_decide_eq_true_2 _ Hp0), ?(bool_decide_eq_false_2 _ Hp0).
  all: cbn [negb fst snd]; rewrite ?app_nil_r, <- ?app_assoc; by split.
Qed.

End collectors.

Section collectors_frame.
Context `{Helpers}.
Import stages.

(** X21. The collectors of account state and of bytecode touch the account
    values and the key sources only, whatever they are given and whatever
    their outcome: no entry of these two maps is removed, the tree nodes,
    hash keys, code, last root and depth are the same, so that [Get]
    answers as before on every key and a store without nodes is still
    empty for [IsEmpty] after any number of collected accounts. *)
Theorem collectors_leave_tree_alone (m : MemDb) (keys : list NodeKey)
    (ethAddr : string) (balance nonce : option Z) (bytecode : string)
    (k : NodeKey) :
  let m1 := (insertAccountStateToKV m keys ethAddr balance nonce).1 in
  let m2 := (insertContractBytecodeToKV m keys ethAddr bytecode).1 in
  (collected_into m m1 /\ Get m1 k = Get m k /\ IsEmpty m1 = IsEmpty m)
  /\ (collected_into m m2 /\ Get m2 k = Get m k /\ IsEmpty m2 = IsEmpty m).
Proof.
  cbv zeta.
  assert (Hframe : forall m', collected_into m m' ->
            collected_into m m' /\ Get m' k = Get m k /\ IsEmpty m' = IsEmpty m).
  { intros m' Hm. split; [done|]. destruct Hm as (Hdb & _).
    unfold Get, IsEmpty. by rewrite Hdb. }
  assert (Htwo : forall k1 v1 ks1 k2 v2 ks2 (z1 z2 : bool),
    collected_into m
      (let '(m, keys) :=
         if z1 then (CollectKeySource (CollectAccountValue m k1 v1) k1 ks1, keys ++ [k1])
         else (m, keys) in
       let '(m, keys) :=
         if z2 then (CollectKeySource (CollectAccountValue m k2 v2) k2 ks2, keys ++ [k2])
         else (m, keys) in
       (m, Ok keys)).1).
  { intros k1 v1 ks1 k2 v2 ks2 [] []; cbn [fst];
      repeat first
        [ apply collected_into_refl
        | eapply collected_into_trans; [|apply collected_into_key_source]
        | eapply collected_into_trans; [|apply collected_into_value] ]. }
  split; apply Hframe.
  - unfold insertAccountStateToKV.
    destruct (ScalarToArrayBig balance) as [x1| |]; [|apply collected_into_refl..].
    destruct (NodeValue8FromBigIntArray x1) as [v1| |]; [|apply collected_into_refl..].
    destruct (ScalarToArrayBig nonce) as [x2| |]; [|apply collected_into_refl..].
    destruct (NodeValue8FromBigIntArray x2) as [v2| |]; [|apply collected_into_refl..].
    apply Htwo.
  - unfold insertContractBytecodeToKV. cbv zeta.
    destruct (ScalarToArrayBig _) as [x1| |]; [|apply collected_into_refl..].
    destruct (NodeValue8FromBigIntArray x1) as [v1| |]; [|apply collected_into_refl..].
    destruct (ScalarToArrayBig _) as [x2| |]; [|apply collected_into_refl..].
    destruct (NodeValue8FromBigIntArray x2) as [v2| |]; [|apply collected_into_refl..].
    apply Htwo.
Qed.

End collectors_frame.

(** ** [SetContractStorage] as a whole *)

Section contract_storage_outcome.
Context `{Helpers} `{Engine}.

(** X22. What [SetContractStorage] does with a storage map, for any number
    of workers and any order in which the map is ranged over. When every
    value that is not empty can be hashed (and the empty string is not a
    slot with a value), [InsertStorage] is called once, on the maps that
    hold one entry per slot with a value that is not empty, and its result
    and the store it leaves are those of [SetContractStorage]. When some
    value cannot be hashed, [InsertStorage] is not reached and the store is
    left as it was. In both cases no key source is written and the context
    is not polled. *)
Theorem SetContractStorage_outcome (cpuNum : nat) (ethAddr : string)
    (storage : gmap string string) (keys : list string) (s : SMT) :
  (0 < cpuNum)%nat ->
  keys ≡ₚ (map_to_list storage).*1 ->
  (values_ok storage -> storage_get storage "" = "" ->
   SetContractStorage cpuNum ethAddr storage keys s
   = Some ({| Db := (InsertStorage (Db s) ethAddr storage
                       (expected_chm storage) (expected_vhm storage)).1;
              calls := calls s; polls := polls s |},
           (InsertStorage (Db s) ethAddr storage
              (expected_chm storage) (expected_vhm storage)).2))
  /\ (¬ values_ok storage ->
      SetContractStorage cpuNum ethAddr storage keys s
      = Some (s, Panic NilDereference)).
Proof.
  intros Hc Hperm.
  assert (Hcover : forall k, is_Some (storage !! k) -> k ∈ keys).
  { intros k [v Hv]. rewrite Hperm. apply list_elem_of_fmap.
    exists (k, v). split; [done|]. by apply elem_of_map_to_list. }
  unfold SetContractStorage, hash_storage_values. split.
  - intros Hok Hempty.
    rewrite (parallel_maps_expected storage keys cpuNum Hc Hcover Hok Hempty).
    rewrite (sequential_maps_expected storage keys Hcover Hok).
    destruct (decide (100 < size storage)%nat);
      by destruct (InsertStorage (Db s) ethAddr storage _ _).
  - intros Hno. destruct (not_values_ok storage Hno) as (k & Hne & Hcalc).
    assert (Hin : k ∈ keys).
    { apply Hcover. unfold storage_get in Hne. by destruct (storage !! k). }
    rewrite (parallel_maps_fails storage k keys cpuNum Hc Hin Hne Hcalc).
    unfold sequential_maps.
    rewrite (sequential_loop_fails storage k keys Hin Hne Hcalc (∅, ∅)).
    by destruct (decide (100 < size storage)%nat).
Qed.

End contract_storage_outcome.

(** ** [processAccount]: the three collectors in a row *)

Section process_account.
Context `{Helpers}.
Import stages.

Lemma collects_two (z1 z2 : bool) (m : MemDb) (keys : list NodeKey)
    (k1 k2 : NodeKey) (v1 ks1 v2 ks2 : list Z) :
  collects 2 m keys
    (let '(m, keys) :=
       if z1 then (CollectKeySource (CollectAccountValue m k1 v1) k1 ks1, keys ++ [k1])
       else (m, keys) in
     let '(m, keys) :=
       if z2 then (CollectKeySource (CollectAccountValue m k2 v2) k2 ks2, keys ++ [k2])
       else (m, keys) in
     (m, Ok keys)).
Proof.
  pose proof (collects_one z1 m keys k1 v1 ks1) as H1.
  destruct z1; cbn beta iota in H1 |- *.
  - apply (collects_seq 1 1 _ _ _ _ _ H1), collects_one.
  - apply (collects_seq 1 1 _ _ _ _ _ H1), collects_one.
Qed.

Lemma collects_account (m : MemDb) (keys : list NodeKey) (ethAddr : string)
    (balance nonce : option Z) :
  collects 2 m keys (insertAccountStateToKV m keys ethAddr balance nonce).
Proof.
  unfold insertAccountStateToKV.
  destruct (ScalarToArrayBig balance) as [x1| |];
    [|by apply collects_failed; [apply collected_into_refl|]..].
  destruct (NodeValue8FromBigIntArray x1) as [v1| |];
    [|by apply collects_failed; [apply collected_into_refl|]..].
  destruct (ScalarToArrayBig nonce) as [x2| |];
    [|by apply collects_failed; [apply collected_into_refl|]..].
  destruct (NodeValue8FromBigIntArray x2) as [v2| |];
    [|by apply collects_failed; [apply collected_into_refl|]..].
  apply collects_two.
Qed.

Lemma collects_bytecode (m : MemDb) (keys : list NodeKey) (ethAddr : string)
    (bytecode : string) :
  collects 2 m keys (insertContractBytecodeToKV m keys ethAddr bytecode).
Proof.
  unfold insertContractBytecodeToKV. cbv zeta.
  destruct (ScalarToArrayBig _) as [x1| |];
    [|by apply collects_failed; [apply collected_into_refl|]..].
  destruct (NodeValue8FromBigIntArray x1) as [v1| |];
    [|by apply collects_failed; [apply collected_into_refl|]..].
  destruct (ScalarToArrayBig _) as [x2| |];
    [|by apply collects_failed; [apply collected_into_refl|]..].
  destruct (NodeValue8FromBigIntArray x2) as [v2| |];
    [|by apply collects_failed; [apply collected_into_refl|]..].
  apply collects_two.
Qed.

(** X23. [processAccount] returns keys it has stored. Whatever the account,
    its code and its storage, and whatever the outcome, the store it leaves
    has every account value and key source it had and the same tree nodes,
    hash keys, code, last root and depth. When it succeeds, the keys
    returned are the given ones followed by at most four keys (balance,
    nonce, code, code length) and one per storage slot, and each added key
    has an account value and a key source in the store, also after the
    collectors that ran after the one that added it. *)
Theorem processAccount_collects (m : MemDb) (a : Account)
    (as_ : list (string * string)) (readCode : result string)
    (addr : list Z) (keys : list NodeKey) :
  let out := processAccount m a as_ readCode addr keys in
  collected_into m out.1
  /\ forall keys', out.2 = Ok keys' ->
       exists added,
         keys' = keys ++ added
         /\ (length added <= 4 + length as_)%nat
         /\ Forall (fun k =>
                      is_Some (DbAccVal out.1 !! ConvertArrayToHex (key_slice k))
                      /\ is_Some (DbKeySource out.1 !! ConvertArrayToHex (key_slice k)))
                   added.
Proof.
  cbv zeta. change (collects (4 + length as_) m keys
                             (processAccount m a as_ readCode addr keys)).
  unfold processAccount.
  pose proof (collects_account m keys (AddressString addr)
                (Some (Balance a)) (Some (Nonce a))) as Hacc.
  destruct (insertAccountStateToKV m keys (AddressString addr) _ _)
    as [m1 [keys1|e|p]];
    [|by apply collects_failed; [apply Hacc|]..].
  destruct readCode as [ach|e|p];
    [|by apply collects_failed; [apply Hacc|]..].
  assert (Hcode : collects 2 m1 keys1
            (if decide (0 < String.length ach)%nat
             then insertContractBytecodeToKV m1 keys1 (AddressString addr) ("0x" +:+ ach)
             else (m1, Ok keys1))).
  { destruct (decide _); [apply collects_bytecode|apply collects_nothing]. }
  destruct (if decide (0 < String.length ach)%nat
            then insertContractBytecodeToKV m1 keys1 (AddressString addr) ("0x" +:+ ach)
            else (m1, Ok keys1)) as [m2 [keys2|e|p]].
  2,3: apply collects_failed; [|done];
       eapply collected_into_trans; [apply Hacc|apply Hcode].
  pose proof (collects_seq 2 2 _ _ _ _ _ Hacc Hcode) as H4.
  apply (collects_seq (2 + 2) (length as_) _ _ _ _ _ H4).
  destruct (decide (0 < length as_)%nat);
    [apply collects_storage|apply collects_nothing].
Qed.

End process_account.

(** * The further properties on concrete runs *)

Section further_sample_runs.
Local Existing Instance Sample.helpers.
Local Existing Instance Sample.engine.

(** A node record of three limbs reads as these limbs and nine zeros. *)
Lemma Get_malformed_record_sample :
  let key := mkNodeKey 1 2 3 4 in
  let m := {| db.Db := {[ ConvertArrayToHex (key_slice key)
                          := ConvertUint64ToHex <$> [7; 8; 9] ]};
              DbAccVal := ∅; DbKeySource := ∅; DbHashKey := ∅; DbCode := ∅;
              LastRoot := 0; Depth := 0 |} in
  Get m key = Ok [7; 8; 9; 0; 0; 0; 0; 0; 0; 0; 0; 0].
Proof.
  intros key m.
  assert (Hgood : Forall2 (fun s v => ConvertHexToUint64 s = Ok v)
                          (ConvertUint64ToHex <$> [7; 8; 9]) [7; 8; 9]).
  { repeat constructor. }
  assert (Hk : db.Db m !! ConvertArrayToHex (key_slice key)
               = Some ((ConvertUint64ToHex <$> [7; 8; 9]) ++ [])).
  { vm_compute. reflexivity. }
  exact (proj1 (Get_malformed_record m key _ [7; 8; 9] [] Hgood
                  ltac:(cbn; lia) Hk) eq_refl).
Defined.

Lemma convertStringToBigInt_hex_bytes_sample :
  convertStringToBigInt ("0x" +:+ Go.EncodeToString [0; 42]) = Some (Go.SetBytes [0; 42])
  /\ convertStringToBigInt "" = None
  /\ convertStringToBigInt "0x" = None.
Proof.
  apply (convertStringToBigInt_hex_bytes [0; 42]); [done|].
  repeat constructor; lia.
Defined.

(** Two accounts, one code and three slots, one of them zero. *)
Definition sample_code : list (list Z * string) := [(Sample.addr1, "0x6080")].

Definition sample_storage : list (list Z * list (string * string)) :=
  [(Sample.addr1, [("1", "0x2a"); ("2", "0"); ("3", "7")])].

Lemma SetStorage_batch_size_sample :
  let run := SetStorage Sample.never_done "test" Sample.two_accounts
               sample_code sample_storage Sample.fresh in
  exists keys vals,
    run.2 = Ok (Some keys, Some vals)
    /\ length keys = 9%nat /\ length vals = 9%nat.
Proof.
  intros run.
  lazymatch eval vm_compute in (run.2) with
  | Ok (Some ?K, Some ?V) =>
      assert (E : run = (run.1, Ok (Some K, Some V))) by (vm_compute; reflexivity);
      exists K, V; split; [by rewrite E|];
      exact (SetStorage_batch_size Sample.never_done "test" Sample.two_accounts
               sample_code sample_storage Sample.fresh run.1 K V E)
  end.
Defined.

Lemma SetStorage_polls_per_address_sample :
  let run := SetStorage Sample.never_done "test" Sample.two_accounts
               sample_code sample_storage Sample.fresh in
  (polls run.1 <= polls Sample.fresh + (2 + 1 + 1))%nat
  /\ (is_ok run.2 = true -> polls run.1 = (polls Sample.fresh + (2 + 1 + 1))%nat).
Proof.
  intros run.
  assert (E : run = (run.1, run.2)) by (by destruct run).
  exact (SetStorage_polls_per_address Sample.never_done "test" Sample.two_accounts
           sample_code sample_storage Sample.fresh run.1 run.2 E).
Defined.

Lemma SetStorage_fails_only_in_InsertBatch_sample :
  exists s1 keys vals,
    setStorage_collect Sample.never_done "test" Sample.two_accounts
                       sample_code sample_storage Sample.fresh
    = (s1, Ok (keys, vals))
    /\ (~ (sample_storage = [] /\ Sample.two_accounts = [] /\ sample_code = []) ->
        (SetStorage Sample.never_done "test" Sample.two_accounts
                    sample_code sample_storage Sample.fresh).2
        = match (InsertBatch (Db s1) keys vals).2 with
          | Ok _ => Ok (Some keys, Some vals)
          | Err e => Err e
          | Panic p => Panic p
          end).
Proof.
  apply (SetStorage_fails_only_in_InsertBatch Sample.never_done "test"
           Sample.two_accounts sample_code sample_storage Sample.fresh).
  - done.
  - repeat constructor; cbn; by eexists.
Defined.

Lemma SetStorage_batches_account_inserts_sample :
  let acc := Some (mkAccount 3 100) in
  let single := SetAccountStorage Sample.addr1 acc Sample.fresh in
  exists keys vals,
    (SetStorage Sample.never_done "test" [(Sample.addr1, acc)] [] [] Sample.fresh).2
    = Ok (Some keys, Some vals)
    /\ length keys = length vals
    /\ zip keys vals
       = batched <$> scalar_inserts (new_calls Sample.fresh single.1).
Proof.
  intros acc single.
  lazymatch eval vm_compute in
    (SetStorage Sample.never_done "test" [(Sample.addr1, acc)] [] [] Sample.fresh).2 with
  | Ok (Some ?K, Some ?V) =>
      assert (E : (SetStorage Sample.never_done "test" [(Sample.addr1, acc)] [] []
                              Sample.fresh).2 = Ok (Some K, Some V))
        by (vm_compute; reflexivity);
      exists K, V; split; [exact E|];
      exact (SetStorage_batches_account_inserts Sample.never_done "test"
               Sample.addr1 acc Sample.fresh Sample.fresh K V E eq_refl)
  end.
Defined.

Lemma SetStorage_batches_bytecode_inserts_sample :
  let single := SetContractBytecode (AddressString Sample.addr1) "0x6080" Sample.fresh in
  exists keys vals,
    (SetStorage Sample.never_done "test" [] [(Sample.addr1, "0x6080")] [] Sample.fresh).2
    = Ok (Some keys, Some vals)
    /\ length keys = length vals
    /\ zip keys vals
       = batched <$> scalar_inserts (new_calls Sample.fresh single.1).
Proof.
  intros single.
  lazymatch eval vm_compute in
    (SetStorage Sample.never_done "test" [] [(Sample.addr1, "0x6080")] [] Sample.fresh).2 with
  | Ok (Some ?K, Some ?V) =>
      assert (E : (SetStorage Sample.never_done "test" [] [(Sample.addr1, "0x6080")] []
                              Sample.fresh).2 = Ok (Some K, Some V))
        by (vm_compute; reflexivity);
      exists K, V; split; [exact E|];
      exact (SetStorage_batches_bytecode_inserts Sample.never_done "test"
               Sample.addr1 "0x6080" Sample.fresh Sample.fresh K V E eq_refl)
  end.
Defined.

(** An account with no balance and the nonce 5: the nonce key alone. *)
Lemma insertAccountStateToKV_nonzero_only_sample :
  let kn := KeyEthAddrNonce "0x01" in
  let out := stages.insertAccountStateToKV NewMemDb [] "0x01" (Some 0) (Some 5) in
  out.2 = Ok [kn]
  /\ (0 = 0 -> 5 = 0 -> out.1 = NewMemDb)
  /\ (5 ≠ 0 ->
      DbAccVal out.1 !! ConvertArrayToHex (key_slice kn)
      = Some (ConvertUint64ToHex <$> lanes32 5)
      /\ GetKeySource out.1 kn
         = Ok (EncodeKeySource KEY_NONCE (HexToAddress "0x01") zeroHash)).
Proof.
  exact (insertAccountStateToKV_nonzero_only NewMemDb [] "0x01" 0 5
           ltac:(lia) ltac:(lia)).
Defined.

Lemma insertContractStorageToKV_skips_sample :
  stages.insertContractStorageToKV NewMemDb [] "0x01"
    [("1", ""); ("2", "0x0"); ("3", "0")]
  = (NewMemDb, Ok []).
Proof.
  apply insertContractStorageToKV_skips_empty_and_zero.
  repeat constructor; cbn [fst snd]; first [by left | right; by split].
Defined.

Lemma insertContractBytecodeToKV_nonzero_only_sample :
  (stages.insertContractBytecodeToKV NewMemDb [] "0x01" "0x6080").2
  = Ok [KeyContractCode "0x01"; KeyContractLength "0x01"].
Proof.
  refine (proj1 (insertContractBytecodeToKV_nonzero_only NewMemDb [] "0x01" "0x6080"
                   _ _)).
  - split; [apply Z.leb_le|apply Z.ltb_lt]; vm_compute; reflexivity.
  - cbn. lia.
Defined.

Lemma SetContractStorage_outcome_sample :
  (values_ok Sample.storage3 -> storage_get Sample.storage3 "" = "" ->
   SetContractStorage 2 "0x01" Sample.storage3 Sample.keys3 Sample.fresh
   = Some ({| Db := (InsertStorage (Db Sample.fresh) "0x01" Sample.storage3
                       (expected_chm Sample.storage3)
                       (expected_vhm Sample.storage3)).1;
              calls := calls Sample.fresh; polls := polls Sample.fresh |},
           (InsertStorage (Db Sample.fresh) "0x01" Sample.storage3
              (expected_chm Sample.storage3) (expected_vhm Sample.storage3)).2))
  /\ (¬ values_ok Sample.storage3 ->
      SetContractStorage 2 "0x01" Sample.storage3 Sample.keys3 Sample.fresh
      = Some (Sample.fresh, Panic NilDereference)).
Proof.
  exact (SetContractStorage_outcome 2 "0x01" Sample.storage3 Sample.keys3
           Sample.fresh ltac:(lia) ltac:(reflexivity)).
Defined.

End further_sample_runs.
